(** * Star-registry blockchain: chain store, append engine, validator, queries

    A shallow embedding of the [Blockchain] class of [src/blockchain.ts]
    (the second half of [src/app.ts]) and proofs about it.

    Conventions of the embedding.

    - A promise is modelled by what it settles to ([Resolve] or [Reject]);
      every method of the class runs to completion before the next one
      starts (one writer).  Calls of [_addBlock] that overlap, the genesis
      append of the constructor among them, are modelled apart, as runs of
      a step relation.  The promises returned by [Block.validate] and
      [Block.getBData] are settled when they are returned (hashing and
      decoding are synchronous), so the reactions registered on them run
      in registration order and before the continuation of the caller.
    - The object [this] is passed in and handed back: a method that can
      mutate the store returns the store after the call.
    - [new Date().getTime().toString().slice(0,-3)] is an input of the
      methods that read the clock: the decimal string of epoch seconds.
    - A JavaScript number is an exact integer, [None] standing for [NaN].
      This agrees with double arithmetic whenever the clock reading is
      below [2^53]. *)

From stdpp Require Import base decidable option numbers list list_numbers strings pretty relations.
From Stdlib Require Import Ascii ZArith Lia.

Local Open Scope Z_scope.

(** ** JavaScript primitives used by the class *)

Module Js.

(** The white space [parseInt] skips, among code units below 256. *)
Definition isWhiteSpace (a : ascii) : bool :=
  bool_decide (nat_of_ascii a ∈ [9; 10; 11; 12; 13; 32; 160]%nat).

Fixpoint trimStart (s : string) : string :=
  match s with
  | String a rest => if isWhiteSpace a then trimStart rest else s
  | EmptyString => EmptyString
  end.

(** Value of a character as a digit: [0-9], [a-z], [A-Z]. *)
Definition digitValue (radix : Z) (a : ascii) : option Z :=
  let n := Z.of_nat (nat_of_ascii a) in
  let v :=
    if bool_decide (48 ≤ n ≤ 57) then Some (n - 48)
    else if bool_decide (97 ≤ n ≤ 122) then Some (n - 97 + 10)
    else if bool_decide (65 ≤ n ≤ 90) then Some (n - 65 + 10)
    else None in
  v ≫= λ d, if bool_decide (d < radix) then Some d else None.

(** The longest prefix of digits, read in [radix]; [acc] is [None] as
    long as no digit has been read. *)
Fixpoint parseDigits (radix : Z) (s : string) (acc : option Z) : option Z :=
  match s with
  | String a rest =>
      match digitValue radix a with
      | Some d => parseDigits radix rest (Some (default 0 acc * radix + d))
      | None => acc
      end
  | EmptyString => acc
  end.

(** [parseInt(s)] with no radix argument; [None] is [NaN]. *)
Definition parseInt (s : string) : option Z :=
  let s := trimStart s in
  let '(sign, s) :=
    match s with
    | String "-"%char rest => (-1, rest)
    | String "+"%char rest => (1, rest)
    | _ => (1, s)
    end in
  let '(radix, s) :=
    match s with
    | String "0"%char (String "x"%char rest) => (16, rest)
    | String "0"%char (String "X"%char rest) => (16, rest)
    | _ => (10, s)
    end in
  Z.mul sign <$> parseDigits radix s None.

(** [s.split(':')]: never the empty array. *)
Fixpoint split_colon (s : string) : list string :=
  match s with
  | EmptyString => [EmptyString]
  | String a rest =>
      if bool_decide (a = ":"%char) then EmptyString :: split_colon rest
      else match split_colon rest with
           | field :: fields => String a field :: fields
           | [] => [String a EmptyString]
           end
  end.

(** [a[i]] on an array, [undefined] ([None]) out of range. *)
Definition index {A} (a : list A) (i : Z) : option A :=
  if bool_decide (0 ≤ i) then a !! Z.to_nat i else None.

(** [String(undefined)], what [parseInt] sees for a missing field. *)
Definition undefined : string := "undefined".

(** [x - y], [Math.floor(x / 60)] and [x > 5] on numbers with [NaN]. *)
Definition sub (x y : option Z) : option Z :=
  x ≫= λ a, y ≫= λ b, Some (a - b).
Definition floorDiv60 (x : option Z) : option Z := (λ a, a `div` 60) <$> x.
Definition gt (x : option Z) (k : Z) : bool :=
  match x with Some a => bool_decide (a > k) | None => false end.

End Js.

(** ** Blocks

    The class [Block] of [./block] is not part of the sources at hand; the
    chain only reads and writes the fields below and calls [validate] and
    [getBData]. *)

(** A decoded payload: [{data: ...}] or [{owner: ..., star: ...}]; the star
    itself is opaque to the chain. *)
Inductive Payload : Type :=
| DataPayload (data : string)
| StarPayload (owner : string) (star : string).

(** [message['owner']], [undefined] ([None]) when the field is absent. *)
Definition owner_of (message : Payload) : option string :=
  match message with
  | DataPayload _ => None
  | StarPayload owner _ => Some owner
  end.

(** What the field [time] can hold: nothing yet, the clock string written
    by [_addBlock], or the number written by [tamperWithBlock]. *)
Inductive TimeValue : Type :=
| TimeUnset
| TimeString (s : string)
| TimeNumber (n : Z).

Module BlockClass.

(** Modelled from the spec: the record of the absent class [Block], with the
    attributes of the data model (height, timestamp, payload, previous hash,
    own hash) under the names the chain uses for them; [None] is [null]. *)
Record Block : Type := mkBlock {
  hash : option string;
  height : Z;
  body : Payload;
  time : TimeValue;
  previousBlockHash : option string
}.

(** Modelled from the spec: [new Block(data)] of the absent class, a block
    that carries its payload and has no hash and no previous hash yet. *)
Definition new (data : Payload) : Block :=
  mkBlock None 0 data TimeUnset None.

Definition set_hash (v : option string) (b : Block) : Block :=
  mkBlock v (height b) (body b) (time b) (previousBlockHash b).
Definition set_height (v : Z) (b : Block) : Block :=
  mkBlock (hash b) v (body b) (time b) (previousBlockHash b).
Definition set_time (v : TimeValue) (b : Block) : Block :=
  mkBlock (hash b) (height b) (body b) v (previousBlockHash b).
Definition set_previousBlockHash (v : option string) (b : Block) : Block :=
  mkBlock (hash b) (height b) (body b) (time b) v.

End BlockClass.

Abbreviation Block := BlockClass.Block.

#[global] Instance Payload_eq_dec : EqDecision Payload.
Proof. solve_decision. Defined.
#[global] Instance TimeValue_eq_dec : EqDecision TimeValue.
Proof. solve_decision. Defined.
#[global] Instance Block_eq_dec : EqDecision Block.
Proof. solve_decision. Defined.

(** The methods of [Block] the chain calls.  [validate] answers whether the
    block is self-consistent; [getBData] decodes the payload, [None] when
    its promise rejects. *)
Class BlockMethods : Type := {
  validate : Block → bool;
  getBData : Block → option Payload
}.

(** What [bitcoinMessage.verify] does: it returns a boolean or throws an
    error with a message. *)
Inductive VerifyResult : Type :=
| Returns (ok : bool)
| Throws (message : string).

(** The two libraries: [SHA256(JSON.stringify(block)).toString()] and
    [bitcoinMessage.verify(message, address, signature)]. *)
Class Libraries : Type := {
  sha256_json : Block → string;
  verify : string → string → string → VerifyResult
}.

(** ** Promises, by what they settle to *)

Inductive Rejection : Type :=
| RejectString (reason : string)
| RejectErrors (errors : list string)
| RejectTypeError.

Inductive Promise (A : Type) : Type :=
| Resolve (value : A)
| Reject (reason : Rejection).
Arguments Resolve {A} value.
Arguments Reject {A} reason.

(** Calls a method makes to the signature library or to [_addBlock]. *)
Inductive Call : Type :=
| CallVerify (message address signature : string)
| CallAddBlock (block : Block).

(** ** The chain store *)

Record Blockchain : Type := mkBlockchain {
  chain : list Block;
  height : Z
}.

Definition notValidMessage (height : Z) : string :=
  "Block at height " +:+ pretty height +:+ " is not valid".
Definition previousHashMessage (height : Z) : string :=
  "Block " +:+ pretty height +:+ " previousBlockHash is not the same as the previous hash".
Definition expiredMessage : string := "More than 5 minutes have elapsed".
Definition signatureMessage : string := "Signature not valid".
Definition hashNotFoundMessage : string := "Block hash not found".

Section Blockchain.
Context `{!BlockMethods, !Libraries}.

(** [getChainHeight()]: resolves with the height counter. *)
Definition getChainHeight (self : Blockchain) : Z := height self.

(** The reaction [validateChain] registers for one block: [value] is the
    pair of the block's validation result and its height field.  A read of
    a field of [self.chain[k]] for [k] outside the array throws inside the
    reaction, which then pushes nothing more. *)
Definition reaction (self : Blockchain) (errorLog : list string)
    (value : bool * Z) : list string :=
  let '(passed, height') := value in
  let errorLog :=
    if negb passed then errorLog ++ [notValidMessage height'] else errorLog in
  if bool_decide (height' > 0) then
    match Js.index (chain self) height' with
    | None => errorLog
    | Some current =>
        match Js.index (chain self) (height' - 1) with
        | None => errorLog
        | Some previous =>
            if bool_decide (BlockClass.previousBlockHash current
                            ≠ BlockClass.hash previous)
            then errorLog ++ [previousHashMessage height']
            else errorLog
        end
    end
  else errorLog.

(** [validateChain()]: the error log its promise resolves with.  The
    reactions run in the order of [self.chain], each pushing to the one
    shared [errorLog]. *)
Definition validateChain (self : Blockchain) : list string :=
  let values :=
    (λ block, (validate block, BlockClass.height block)) <$> chain self in
  foldl (reaction self) [] values.

(** [_addBlock(block)] at clock reading [now]: the store after the call,
    the candidate object after the call, and what the promise settles to.
    [height'] is the value [getChainHeight] resolved with. *)
Definition _addBlock (self : Blockchain) (block : Block) (now : string)
    : Blockchain * Block * Promise Block :=
  let height' := getChainHeight self in
  let stamped :=
    if bool_decide (height' > -1) then
      match Js.index (chain self) (height self) with
      | Some last =>
          Some (BlockClass.set_previousBlockHash (BlockClass.hash last) block)
      | None => None
      end
    else Some block in
  match stamped with
  | None => (self, block, Reject RejectTypeError)
  | Some block =>
      let block := BlockClass.set_height (height' + 1) block in
      let block := BlockClass.set_time (TimeString now) block in
      let block := BlockClass.set_hash (Some (sha256_json block)) block in
      let errors := validateChain self in
      if bool_decide (length errors = 0%nat) then
        (mkBlockchain (chain self ++ [block]) (height self + 1),
         block, Resolve block)
      else (self, block, Reject (RejectErrors errors))
  end.

(** [initializeChain()]: appends the Genesis Block to an empty store. *)
Definition initializeChain (self : Blockchain) (now : string) : Blockchain :=
  if bool_decide (height self = -1) then
    let block := BlockClass.new (DataPayload "Genesis Block") in
    (_addBlock self block now).1.1
  else self.

(** [new Blockchain()]. *)
Definition constructor (now : string) : Blockchain :=
  initializeChain (mkBlockchain [] (-1)) now.

(** [getBlockByHash(hash)]. *)
Definition getBlockByHash (self : Blockchain) (hash : string) : Promise Block :=
  match List.find (λ p, bool_decide (BlockClass.hash p = Some hash)) (chain self) with
  | Some block => Resolve block
  | None => Reject (RejectString hashNotFoundMessage)
  end.

(** [getBlockByHeight(height)]; [Resolve None] is [resolve(null)]. *)
Definition getBlockByHeight (self : Blockchain) (height' : Z)
    : Promise (option Block) :=
  match filter (λ p, BlockClass.height p = height') (chain self) with
  | block :: _ => Resolve (Some block)
  | [] => Resolve None
  end.

(** Writes [update] to the first block whose height field is [height], in
    place: the object found by [getBlockByHeight] is the one in the array. *)
Definition tamper (update : Block → Block) (self : Blockchain) (height' : Z)
    : Blockchain * option Block :=
  match list_find (λ p, BlockClass.height p = height') (chain self) with
  | Some (i, block) =>
      (mkBlockchain (<[i := update block]> (chain self)) (height self),
       Some (update block))
  | None => (self, None)
  end.

(** [tamperWithBlock(height)]: [block.time = 3]. *)
Definition tamperWithBlock : Blockchain → Z → Blockchain * option Block :=
  tamper (BlockClass.set_time (TimeNumber 3)).

(** [tamperWithChain(height)]: [block.previousBlockHash = "123456"]. *)
Definition tamperWithChain : Blockchain → Z → Blockchain * option Block :=
  tamper (BlockClass.set_previousBlockHash (Some "123456")).

(** [requestMessageOwnershipVerification(address)]. *)
Definition requestMessageOwnershipVerification (address now : string) : string :=
  address +:+ ":" +:+ now +:+ ":starRegistry".

(** [parseInt(message.split(':')[1])] of [submitStar]. *)
Definition messageTime (message : string) : option Z :=
  Js.parseInt (default Js.undefined (Js.split_colon message !! 1%nat)).

(** [Math.floor((currentTime - time) / 60) > 5] of [submitStar]. *)
Definition expired (message now : string) : bool :=
  let time := messageTime message in
  let currentTime := Js.parseInt now in
  Js.gt (Js.floorDiv60 (Js.sub currentTime time)) 5.

(** The [else] branch of [submitStar]: verify, then append.  [stamp] is the
    clock reading [_addBlock] takes. *)
Definition verifyAndAdd (self : Blockchain) (address message signature star : string)
    (stamp : string) : Blockchain * Promise Block * list Call :=
  let calls := [CallVerify message address signature] in
  match verify message address signature with
  | Returns true =>
      let block := BlockClass.new (StarPayload address star) in
      let '(self, _, result) := _addBlock self block stamp in
      (self, result, calls ++ [CallAddBlock block])
  | Returns false => (self, Reject (RejectString signatureMessage), calls)
  | Throws message => (self, Reject (RejectString message), calls)
  end.

(** [submitStar(address, message, signature, star)] at clock reading [now]:
    the store after the call, what the promise settles to, and the calls
    made to the signature library and to [_addBlock]. *)
Definition submitStar (self : Blockchain) (address message signature star : string)
    (now stamp : string) : Blockchain * Promise Block * list Call :=
  if expired message now then
    (self, Reject (RejectString expiredMessage), [])
  else verifyAndAdd self address message signature star stamp.

(** [getStarsByWalletAddress(address)]: each block's reaction pushes to the
    shared array [stars]; a rejected decoding is swallowed by [catch]. *)
Definition getStarsByWalletAddress (self : Blockchain) (address : string)
    : Promise (list Payload) :=
  let stars :=
    foldl (λ stars block,
             match getBData block with
             | Some message =>
                 if bool_decide (owner_of message = Some address)
                 then stars ++ [message] else stars
             | None => stars
             end) [] (chain self) in
  Resolve stars.

End Blockchain.

(** ** The validator's result, height by height *)

Section Inconsistencies.
Context `{!BlockMethods}.

(** The block at height [h] fails its self-validation. *)
Definition selfValidationErrors (c : list Block) (h : Z) : list string :=
  match Js.index c h with
  | Some block => if validate block then [] else [notValidMessage h]
  | None => []
  end.

(** For [h > 0]: [chain[h].previousBlockHash] differs from [chain[h-1].hash]. *)
Definition linkageErrors (c : list Block) (h : Z) : list string :=
  match Js.index c h, Js.index c (h - 1) with
  | Some current, Some previous =>
      if bool_decide (h > 0 ∧ BlockClass.previousBlockHash current
                               ≠ BlockClass.hash previous)
      then [previousHashMessage h] else []
  | _, _ => []
  end.

Definition errorsAtHeight (c : list Block) (h : Z) : list string :=
  selfValidationErrors c h ++ linkageErrors c h.

(** Every inconsistency of the chain, by ascending height. *)
Definition inconsistencies (c : list Block) : list string :=
  h ← seqZ 0 (Z.of_nat (length c)); errorsAtHeight c h.

(** Every block validates and every block above the first links to the
    block below it. *)
Definition consistent (c : list Block) : Prop :=
  ∀ (h : Z) (current : Block), Js.index c h = Some current →
    validate current = true ∧
    ∀ previous, h > 0 → Js.index c (h - 1) = Some previous →
      BlockClass.previousBlockHash current = BlockClass.hash previous.

End Inconsistencies.

(** Each block above the first carries the hash of the block below it. *)
Definition linked (c : list Block) : Prop :=
  ∀ (h : Z) (current previous : Block), h > 0 →
    Js.index c h = Some current → Js.index c (h - 1) = Some previous →
    BlockClass.previousBlockHash current = BlockClass.hash previous.

(** ** The candidate as the append engine seals it

    Steps 2 to 5 of the append protocol: the hash of the last block of a
    chain that is not empty, the next height, the clock reading, and the
    digest of the block as it then is. *)

Section Sealed.
Context `{!Libraries}.

Definition stamped (self : Blockchain) (block : Block) (now : string) : Block :=
  let block :=
    match last (chain self) with
    | Some previous =>
        BlockClass.set_previousBlockHash (BlockClass.hash previous) block
    | None => block
    end in
  BlockClass.set_time (TimeString now)
    (BlockClass.set_height (height self + 1) block).

Definition sealed (self : Blockchain) (block : Block) (now : string) : Block :=
  BlockClass.set_hash (Some (sha256_json (stamped self block now)))
    (stamped self block now).

Definition pushed (self : Blockchain) (block : Block) : Blockchain :=
  mkBlockchain (chain self ++ [block]) (height self + 1).

End Sealed.

(** ** Store invariants and reachable stores *)

(** The height field of each block is its index in the array. *)
Definition heights_sequential (c : list Block) : Prop :=
  BlockClass.height <$> c = seqZ 0 (Z.of_nat (length c)).

(** The counter is the last index and the heights are the indices. *)
Definition well_formed (self : Blockchain) : Prop :=
  height self = Z.of_nat (length (chain self)) - 1 ∧
  heights_sequential (chain self).

Section Reachable.
Context `{!BlockMethods, !Libraries}.

(** [appended n self]: [self] is a freshly constructed store after [n]
    calls of [_addBlock] that resolved, and nothing else. *)
Inductive appended : nat → Blockchain → Prop :=
| appended_O now : appended 0 (constructor now)
| appended_S n self block now self' block' sealed :
    appended n self →
    _addBlock self block now = (self', block', Resolve sealed) →
    appended (S n) self'.

(** Stores reached by whole calls made one after the other, each started
    when the one before has settled, the first of them when the genesis
    append of the constructor has settled; the tamper hooks are included.
    Calls that overlap are the matter of the runs below. *)
Inductive reachable : Blockchain → Prop :=
| reachable_constructor now : reachable (constructor now)
| reachable_addBlock self block now :
    reachable self → reachable (_addBlock self block now).1.1
| reachable_submitStar self address message signature star now stamp :
    reachable self →
    reachable (submitStar self address message signature star now stamp).1.1
| reachable_tamperWithBlock self h :
    reachable self → reachable (tamperWithBlock self h).1
| reachable_tamperWithChain self h :
    reachable self → reachable (tamperWithChain self h).1.

End Reachable.

(** ** Runs with calls under way

    A call of [_addBlock] does its work in two later turns: a first
    callback stamps the candidate, with the height that [getChainHeight]
    resolved with when the call was made, and a second one, once the
    validator has answered, pushes it or rejects.  Other calls can start and
    finish in between: the constructor itself does not wait for
    [initializeChain], and nothing makes callers wait for each other.  A
    world is the store together with the calls of [_addBlock] under way;
    candidates are fresh objects, as at both call sites of the class, so a
    call under way shares no block with the array.

    The verdict of the validator for a call under way depends on the turns
    in which its parts run; the step relation leaves it open and admits both
    the push and the rejection. *)

Inductive InFlight : Type :=
| HeightRead (height' : Z) (block : Block)
| Stamped (block : Block).

Record World : Type := mkWorld {
  store : Blockchain;
  inFlight : list InFlight
}.

Section Runs.
Context `{!Libraries}.

(** The first callback of [_addBlock], for a call that read [height'], on
    the store as it is when the callback runs; [None] when the read of
    [self.chain[self.height].hash] throws. *)
Definition stampCallback (height' : Z) (self : Blockchain) (block : Block)
    (now : string) : option Block :=
  let stamped :=
    if bool_decide (height' > -1) then
      match Js.index (chain self) (height self) with
      | Some last =>
          Some (BlockClass.set_previousBlockHash (BlockClass.hash last) block)
      | None => None
      end
    else Some block in
  block ← stamped;
  let block := BlockClass.set_height (height' + 1) block in
  let block := BlockClass.set_time (TimeString now) block in
  Some (BlockClass.set_hash (Some (sha256_json block)) block).

(** What [new Blockchain()] hands back: the empty store, with the call of
    [_addBlock] for the Genesis Block under way. *)
Definition afterNew : World :=
  mkWorld (mkBlockchain [] (-1))
    [HeightRead (-1) (BlockClass.new (DataPayload "Genesis Block"))].

Inductive step : World → World → Prop :=
| step_call self calls block :
    step (mkWorld self calls)
         (mkWorld self (calls ++ [HeightRead (height self) block]))
| step_stamp self before after height' block now :
    step (mkWorld self (before ++ HeightRead height' block :: after))
         (mkWorld self
            (before
             ++ option_list (Stamped <$> stampCallback height' self block now)
             ++ after))
| step_push self before after block :
    step (mkWorld self (before ++ Stamped block :: after))
         (mkWorld (mkBlockchain (chain self ++ [block]) (height self + 1))
            (before ++ after))
| step_reject self before after block :
    step (mkWorld self (before ++ Stamped block :: after))
         (mkWorld self (before ++ after))
| step_tamperWithBlock self calls h :
    step (mkWorld self calls) (mkWorld (tamperWithBlock self h).1 calls)
| step_tamperWithChain self calls h :
    step (mkWorld self calls) (mkWorld (tamperWithChain self h).1 calls).

(** The bounds a run keeps: the counter is the last index, the height
    field of a block is between 0 and its index, and a call under way
    carries a height no greater than the one the store would give now. *)
Definition inFlight_bounded (self : Blockchain) (call : InFlight) : Prop :=
  match call with
  | HeightRead height' _ => -1 ≤ height' ≤ height self
  | Stamped block => 0 ≤ BlockClass.height block ≤ height self + 1
  end.

Definition heights_bounded (c : list Block) : Prop :=
  ∀ (i : nat) (block : Block), c !! i = Some block →
    0 ≤ BlockClass.height block ≤ Z.of_nat i.

Definition run_invariant (w : World) : Prop :=
  height (store w) = Z.of_nat (length (chain (store w))) - 1 ∧
  heights_bounded (chain (store w)) ∧
  Forall (inFlight_bounded (store w)) (inFlight w).

End Runs.

(** ** A test double for the block class and the two libraries *)

Module Fixture.

Definition show_optional (v : option string) : string := default "null" v.

Definition show_time (v : TimeValue) : string :=
  match v with
  | TimeUnset => "0"
  | TimeString s => "'" +:+ s +:+ "'"
  | TimeNumber n => pretty n
  end.

Definition show_payload (p : Payload) : string :=
  match p with
  | DataPayload data => "data=" +:+ data
  | StarPayload owner star => "owner=" +:+ owner +:+ ",star=" +:+ star
  end.

(** A stand-in for the digest: the fields of the block, one after the other. *)
Definition digest (b : Block) : string :=
  show_optional (BlockClass.hash b) +:+ ";" +:+ pretty (BlockClass.height b)
  +:+ ";" +:+ show_payload (BlockClass.body b)
  +:+ ";" +:+ show_time (BlockClass.time b)
  +:+ ";" +:+ show_optional (BlockClass.previousBlockHash b).

(** Modelled from the spec: [validate] and [getBData] of the absent class
    [Block].  A block validates when the hash recomputed from its current
    field values equals its stored hash; the Genesis Block does not decode. *)
#[export] Instance blockMethods : BlockMethods := {|
  validate b :=
    bool_decide (BlockClass.hash b = Some (digest (BlockClass.set_hash None b)));
  getBData b :=
    if bool_decide (BlockClass.height b > 0) then Some (BlockClass.body b) else None
|}.

(** A signature library that accepts the signature ["signed:" + message]
    and throws on the empty signature. *)
#[export] Instance libraries : Libraries := {|
  sha256_json := digest;
  verify message address signature :=
    if bool_decide (signature = "") then Throws "Invalid signature length"
    else Returns (bool_decide (signature = "signed:" +:+ message))
|}.

(** A store with the Genesis Block only, then with one, two and three stars
    on top; the first and the third star belong to the same wallet. *)
Definition genesisOnly : Blockchain := constructor "1700000000".

Definition submitSigned (self : Blockchain) (address star now : string) : Blockchain :=
  let message := requestMessageOwnershipVerification address now in
  (submitStar self address message ("signed:" +:+ message) star now now).1.1.

Definition oneStar : Blockchain :=
  submitSigned genesisOnly "walletA" "ra=1,dec=2" "1700000100".

Definition twoStars : Blockchain :=
  submitSigned oneStar "walletB" "ra=3,dec=4" "1700000200".

Definition threeStars : Blockchain :=
  submitSigned twoStars "walletA" "ra=5,dec=6" "1700000300".

(** The same stores after the tamper hooks. *)
Definition tamperedTime : Blockchain := (tamperWithBlock oneStar 1).1.
Definition tamperedLink : Blockchain := (tamperWithChain threeStars 2).1.

(** A candidate block, the block at an index of a store, and a challenge
    issued for a third wallet. *)
Definition candidate : Block := BlockClass.new (StarPayload "walletC" "ra=7,dec=8").

Definition blockAt (self : Blockchain) (h : Z) : Block :=
  default (BlockClass.new (DataPayload "")) (Js.index (chain self) h).

Definition challengeC : string :=
  requestMessageOwnershipVerification "walletC" "1700000400".

(** Two appends that overlap: the candidate is handed to [_addBlock] while
    the genesis append of the constructor is still under way, both are
    stamped on the empty store and both are pushed. *)
Definition genesisStamped : Block :=
  default candidate
    (stampCallback (-1) (mkBlockchain [] (-1))
       (BlockClass.new (DataPayload "Genesis Block")) "1700000000").

Definition candidateStamped : Block :=
  default candidate
    (stampCallback (-1) (mkBlockchain [] (-1)) candidate "1700000000").

Definition overlapped : World :=
  mkWorld (mkBlockchain [genesisStamped; candidateStamped] 1) [].

End Fixture.

(** ** Strings without the separator of the challenge *)

Fixpoint hasColon (s : string) : bool :=
  match s with
  | String a rest => bool_decide (a = ":"%char) || hasColon rest
  | EmptyString => false
  end.

(** * Proofs *)

(** ** Array reads *)

Lemma index_of_nat {A} (a : list A) (i : nat) : Js.index a (Z.of_nat i) = a !! i.
Proof.
  unfold Js.index. rewrite bool_decide_eq_true_2 by lia. by rewrite Nat2Z.id.
Qed.

Lemma index_Some {A} (a : list A) (i : Z) (x : A) :
  Js.index a i = Some x ↔ 0 ≤ i ∧ a !! Z.to_nat i = Some x.
Proof.
  unfold Js.index. case_bool_decide as Hi; [tauto|].
  split; [done | by intros [? _]].
Qed.

Lemma index_negative {A} (a : list A) (i : Z) : i < 0 → Js.index a i = None.
Proof. intros. unfold Js.index. by rewrite bool_decide_eq_false_2 by lia. Qed.

Lemma index_is_Some {A} (a : list A) (i : Z) :
  is_Some (Js.index a i) ↔ 0 ≤ i < Z.of_nat (length a).
Proof.
  unfold Js.index. case_bool_decide.
  - rewrite lookup_lt_is_Some. lia.
  - split; [by intros [? ?] | lia].
Qed.

Lemma heights_sequential_lookup (c : list Block) (i : nat) (block : Block) :
  heights_sequential c → c !! i = Some block →
  BlockClass.height block = Z.of_nat i.
Proof.
  intros Hseq Hi.
  assert ((BlockClass.height <$> c) !! i = Some (BlockClass.height block)) as Hf
    by (by rewrite list_lookup_fmap, Hi).
  rewrite Hseq in Hf. apply lookup_seqZ in Hf. lia.
Qed.

(** ** The validator *)

Section Validator.
Context `{!BlockMethods}.

(** What the reaction of one block adds to the log. *)
Lemma reaction_appends (self : Blockchain) (errorLog : list string) (value : bool * Z) :
  reaction self errorLog value = errorLog ++ reaction self [] value.
Proof.
  destruct value as [passed h]. unfold reaction.
  destruct passed, (bool_decide (h > 0)); simpl;
    try destruct (Js.index (chain self) h) as [current|];
    try destruct (Js.index (chain self) (h - 1)) as [previous|];
    try destruct (bool_decide (_ ≠ _));
    by rewrite ?app_nil_r, <-?(assoc_L (++)).
Qed.

Lemma foldl_reaction (self : Blockchain) (values : list (bool * Z)) (errorLog : list string) :
  foldl (reaction self) errorLog values
  = errorLog ++ (values ≫= reaction self []).
Proof.
  revert errorLog. induction values as [|value values IH]; intros errorLog.
  - simpl. by rewrite app_nil_r.
  - rewrite bind_cons. cbn [foldl].
    rewrite IH, (reaction_appends self errorLog). by rewrite (assoc_L (++)).
Qed.

(** On an array whose heights are its indices, the reaction of the block
    at index [i] logs the errors of height [i]. *)
Lemma reaction_at_index (self : Blockchain) (i : nat) (block : Block) :
  heights_sequential (chain self) → chain self !! i = Some block →
  reaction self [] (validate block, BlockClass.height block)
  = errorsAtHeight (chain self) (Z.of_nat i).
Proof.
  intros Hseq Hi. rewrite (heights_sequential_lookup _ _ _ Hseq Hi).
  unfold reaction, errorsAtHeight, selfValidationErrors, linkageErrors.
  rewrite index_of_nat, Hi.
  destruct (validate block); simpl.
  - case_bool_decide as Hpos.
    + destruct (Js.index (chain self) (Z.of_nat i - 1)); [|done].
      repeat case_bool_decide; tauto.
    + rewrite index_negative by lia. done.
  - case_bool_decide as Hpos.
    + destruct (Js.index (chain self) (Z.of_nat i - 1)); [|done].
      repeat case_bool_decide; tauto.
    + rewrite index_negative by lia. done.
Qed.

Lemma bind_by_index {A B} (f : A → list B) (g : Z → list B) (l : list A) (start : Z) :
  (∀ (i : nat) (x : A), l !! i = Some x → f x = g (start + Z.of_nat i)) →
  l ≫= f = seqZ start (Z.of_nat (length l)) ≫= g.
Proof.
  revert start. induction l as [|x l IH]; intros start Hfg; [done|].
  rewrite seqZ_cons by (simpl; lia). rewrite !bind_cons.
  rewrite (Hfg 0%nat x eq_refl), Z.add_0_r. f_equal.
  replace (Z.pred (Z.of_nat (length (x :: l)))) with (Z.of_nat (length l))
    by (simpl; lia).
  apply IH. intros i y Hi. rewrite (Hfg (S i) y Hi). f_equal. lia.
Qed.

Lemma validateChain_inconsistencies (self : Blockchain) :
  heights_sequential (chain self) →
  validateChain self = inconsistencies (chain self).
Proof.
  intros Hseq. unfold validateChain, inconsistencies.
  rewrite foldl_reaction. simpl.
  rewrite list_fmap_bind.
  apply bind_by_index. intros i block Hi. simpl.
  rewrite Z.add_0_l. by apply reaction_at_index.
Qed.

Lemma errorsAtHeight_length (c : list Block) (h : Z) :
  (length (errorsAtHeight c h) ≤ 2)%nat.
Proof.
  unfold errorsAtHeight, selfValidationErrors, linkageErrors.
  rewrite length_app. repeat case_match; simpl; lia.
Qed.

Lemma errorsAtHeight_nil (c : list Block) (h : Z) (current : Block) :
  Js.index c h = Some current →
  errorsAtHeight c h = [] ↔
    validate current = true ∧
    ∀ previous, h > 0 → Js.index c (h - 1) = Some previous →
      BlockClass.previousBlockHash current = BlockClass.hash previous.
Proof.
  intros Hc. unfold errorsAtHeight, selfValidationErrors, linkageErrors.
  rewrite Hc. destruct (validate current); simpl.
  - destruct (Js.index c (h - 1)) as [previous|];
      [|split; [by intros _; split | done]].
    case_bool_decide as Hd.
    + split; [done|]. intros [_ Hl]. destruct Hd as [Hpos Hne].
      by specialize (Hl previous Hpos eq_refl).
    + split; [|done]. intros _. split; [done|].
      intros previous' Hpos [= <-].
      destruct (decide (BlockClass.previousBlockHash current
                        = BlockClass.hash previous)); tauto.
  - split; [done | by intros [? _]].
Qed.

Lemma elem_of_inconsistencies (c : list Block) (e : string) :
  e ∈ inconsistencies c ↔
  ∃ h, 0 ≤ h < Z.of_nat (length c) ∧ e ∈ errorsAtHeight c h.
Proof.
  unfold inconsistencies. rewrite list_elem_of_bind. split.
  - intros (h & He & Hh). exists h. split; [|done].
    apply list_elem_of_lookup in Hh as [i Hi]. apply lookup_seqZ in Hi. lia.
  - intros (h & Hh & He). exists h. split; [done|].
    apply list_elem_of_lookup. exists (Z.to_nat h). apply lookup_seqZ. lia.
Qed.

Lemma inconsistencies_nil (c : list Block) :
  inconsistencies c = [] ↔ consistent c.
Proof.
  split.
  - intros Hnil h current Hc.
    apply errorsAtHeight_nil; [done|].
    destruct (errorsAtHeight c h) as [|e es] eqn:He; [done|].
    assert (e ∈ inconsistencies c) as Hin.
    { apply elem_of_inconsistencies. exists h. rewrite He.
      split; [by apply index_is_Some | left]. }
    rewrite Hnil in Hin. by apply elem_of_nil in Hin.
  - intros Hcons.
    destruct (inconsistencies c) as [|e es] eqn:He; [done|].
    assert (e ∈ inconsistencies c) as Hin by (rewrite He; left).
    apply elem_of_inconsistencies in Hin as (h & Hh & Hin).
    destruct (index_is_Some c h) as [_ [current Hc]]; [lia|].
    assert (errorsAtHeight c h = []) as Hnil
      by (apply (errorsAtHeight_nil c h current Hc), (Hcons h current Hc)).
    rewrite Hnil in Hin. by apply elem_of_nil in Hin.
Qed.

End Validator.

(** ** The append engine *)

Section Append.
Context `{!BlockMethods, !Libraries}.

Lemma index_last (c : list Block) :
  Js.index c (Z.of_nat (length c) - 1) = last c.
Proof.
  destruct c as [|b c]; [done|].
  replace (Z.of_nat (length (b :: c)) - 1) with (Z.of_nat (length c))
    by (simpl; lia).
  by rewrite index_of_nat, last_lookup.
Qed.

Lemma validateChain_empty (self : Blockchain) :
  chain self = [] → validateChain self = [].
Proof. intros Hc. unfold validateChain. by rewrite Hc. Qed.

(** With the counter at the last index, [_addBlock] never reads outside the
    array: it seals the candidate, then pushes it or rejects. *)
Lemma addBlock_sealed (self : Blockchain) (block : Block) (now : string) :
  height self = Z.of_nat (length (chain self)) - 1 →
  _addBlock self block now =
    if bool_decide (validateChain self = [])
    then (pushed self (sealed self block now), sealed self block now,
          Resolve (sealed self block now))
    else (self, sealed self block now, Reject (RejectErrors (validateChain self))).
Proof.
  intros Hheight. unfold _addBlock, getChainHeight, sealed, stamped, pushed.
  assert (Js.index (chain self) (height self) = last (chain self)) as ->
    by (rewrite Hheight; apply index_last).
  destruct (chain self) as [|b c] eqn:Hc.
  - rewrite bool_decide_eq_false_2 by (simpl in Hheight; lia).
    rewrite (validateChain_empty self Hc). simpl. done.
  - rewrite bool_decide_eq_true_2 by (simpl in Hheight; lia).
    destruct (last (b :: c)) as [previous|] eqn:Hlast;
      [|by apply last_None in Hlast].
    destruct (validateChain self) as [|e es]; done.
Qed.

Lemma heights_sequential_snoc (c : list Block) (block : Block) :
  heights_sequential c → BlockClass.height block = Z.of_nat (length c) →
  heights_sequential (c ++ [block]).
Proof.
  unfold heights_sequential. intros Hseq Hb.
  rewrite fmap_app, length_app, Nat2Z.inj_add, seqZ_app by lia.
  rewrite Hseq. simpl. by rewrite Hb.
Qed.

Lemma pushed_well_formed (self : Blockchain) (block : Block) (now : string) :
  well_formed self → well_formed (pushed self (sealed self block now)).
Proof.
  intros [Hheight Hseq]. split; simpl.
  - rewrite length_app. simpl. lia.
  - apply heights_sequential_snoc; [done|]. simpl. lia.
Qed.

Lemma addBlock_well_formed (self : Blockchain) (block : Block) (now : string) :
  well_formed self → well_formed (_addBlock self block now).1.1.
Proof.
  intros Hwf. rewrite addBlock_sealed by apply Hwf.
  case_bool_decide; simpl; [by apply pushed_well_formed | done].
Qed.

Lemma constructor_eq (now : string) :
  constructor now
  = pushed (mkBlockchain [] (-1))
      (sealed (mkBlockchain [] (-1)) (BlockClass.new (DataPayload "Genesis Block")) now).
Proof. reflexivity. Qed.

Lemma constructor_well_formed (now : string) : well_formed (constructor now).
Proof. by split. Qed.

Lemma tamper_well_formed (update : Block → Block) (self : Blockchain) (h : Z) :
  (∀ b, BlockClass.height (update b) = BlockClass.height b) →
  well_formed self → well_formed (tamper update self h).1.
Proof.
  intros Hupdate [Hheight Hseq]. unfold tamper.
  destruct (list_find _ _) as [[i block]|] eqn:Hfind; [|done].
  apply list_find_Some in Hfind as (Hi & _ & _).
  split; simpl.
  - by rewrite length_insert.
  - unfold heights_sequential.
    rewrite list_fmap_insert, length_insert, Hupdate.
    rewrite list_insert_id; [done|]. by rewrite list_lookup_fmap, Hi.
Qed.

Lemma submitStar_store (self : Blockchain)
    (address message signature star now stamp : string) :
  (submitStar self address message signature star now stamp).1.1 = self ∨
  (submitStar self address message signature star now stamp).1.1
  = (_addBlock self (BlockClass.new (StarPayload address star)) stamp).1.1.
Proof.
  unfold submitStar, verifyAndAdd.
  destruct (expired message now); [by left|].
  destruct (verify message address signature) as [[]|]; [|by left..].
  right. by destruct (_addBlock _ _ _) as [[? ?] ?].
Qed.

(** Every store reached by whole calls made one after the other keeps the
    counter at the last index and the heights at the indices. *)
Lemma reachable_well_formed (self : Blockchain) : reachable self → well_formed self.
Proof.
  induction 1 as [now|self block now _ IH
                 |self address message signature star now stamp _ IH
                 |self h _ IH|self h _ IH].
  - apply constructor_well_formed.
  - by apply addBlock_well_formed.
  - destruct (submitStar_store self address message signature star now stamp)
      as [-> | ->]; [done | by apply addBlock_well_formed].
  - by apply tamper_well_formed.
  - by apply tamper_well_formed.
Qed.

Lemma appended_step (self self' : Blockchain) (block block' sealed' : Block) (now : string) :
  well_formed self →
  _addBlock self block now = (self', block', Resolve sealed') →
  validateChain self = [] ∧ self' = pushed self (sealed self block now).
Proof.
  intros Hwf. rewrite addBlock_sealed by apply Hwf.
  case_bool_decide; [|done]. by intros [= <- _ _].
Qed.

Lemma appended_reachable (n : nat) (self : Blockchain) : appended n self → reachable self.
Proof.
  induction 1 as [now|n self block now self' block' sealed' _ IH Hadd].
  - constructor.
  - replace self' with (_addBlock self block now).1.1 by (by rewrite Hadd).
    by constructor.
Qed.

End Append.

(** ** Properties of the append engine *)

Section AppendProperties.
Context `{!BlockMethods, !Libraries}.

(** C2. A call of [_addBlock] on a well-formed store either rejects with
    the whole error list of the validator and leaves the store as it was
    (when the list is not empty), or pushes the block, adds one to the
    height counter and resolves with the pushed block (when it is empty);
    the store after the call is one of these two.  The pushed block is the
    candidate passed in: the object after the call, with the payload it
    came with, the next height, the clock reading, the hash of the last
    block as previous hash (its own when the chain is empty) and the digest
    of the candidate with these fields set. *)
Theorem addBlock_commits_or_has_no_effect (self : Blockchain) (block : Block) (now : string) :
  well_formed self →
  (validateChain self ≠ [] →
     (_addBlock self block now).2 = Reject (RejectErrors (validateChain self)) ∧
     (_addBlock self block now).1.1 = self) ∧
  (validateChain self = [] →
     ∃ added : Block,
       (_addBlock self block now).2 = Resolve added ∧
       chain (_addBlock self block now).1.1 = chain self ++ [added] ∧
       height (_addBlock self block now).1.1 = height self + 1 ∧
       (_addBlock self block now).1.2 = added ∧
       let previousHash :=
         match last (chain self) with
         | Some previous => BlockClass.hash previous
         | None => BlockClass.previousBlockHash block
         end in
       added
       = BlockClass.mkBlock
           (Some (sha256_json
                    (BlockClass.mkBlock (BlockClass.hash block) (height self + 1)
                       (BlockClass.body block) (TimeString now) previousHash)))
           (height self + 1) (BlockClass.body block) (TimeString now) previousHash) ∧
  ((_addBlock self block now).1.1 = self ∨
   ∃ added : Block, (_addBlock self block now).1.1 = pushed self added).
Proof.
  intros [Hheight _]. rewrite (addBlock_sealed self block now Hheight).
  case_bool_decide as Herrors; simpl.
  - split; [done|]. split; [|right; by eexists].
    intros _. exists (sealed self block now). split_and!; [done..|].
    unfold sealed, stamped. by destruct (last (chain self)).
  - split; [done|]. split; [done | by left].
Qed.

Lemma sealed_previousBlockHash (self : Blockchain) (block previous : Block) (now : string) :
  last (chain self) = Some previous →
  BlockClass.previousBlockHash (sealed self block now) = BlockClass.hash previous.
Proof. intros Hlast. unfold sealed, stamped. by rewrite Hlast. Qed.

Lemma linked_pushed (self : Blockchain) (block : Block) (now : string) :
  linked (chain self) → linked (chain (pushed self (sealed self block now))).
Proof.
  intros Hlinked h current previous Hpos. simpl.
  rewrite !index_Some. intros [_ Hcur] [_ Hprev].
  apply lookup_snoc_Some in Hprev as [[Hlt Hprev]|[Hlen _]];
    [|apply lookup_lt_Some in Hcur; rewrite length_app in Hcur; simpl in Hcur; lia].
  apply lookup_snoc_Some in Hcur as [[_ Hcur]|[Hlen <-]].
  - apply (Hlinked h); [done|apply index_Some; split; [lia|done]..].
  - apply sealed_previousBlockHash.
    rewrite last_lookup, <-Hprev. f_equal. lia.
Qed.

Lemma appended_invariant (n : nat) (self : Blockchain) :
  appended n self →
  well_formed self ∧ height self = Z.of_nat n ∧ linked (chain self).
Proof.
  induction 1 as [now|n self block now self' block' sealed' _ IH Hadd].
  - split; [apply constructor_well_formed|]. split; [done|].
    intros h current previous Hpos Hcur. apply index_Some in Hcur as [_ Hcur].
    apply lookup_lt_Some in Hcur. simpl in Hcur. lia.
  - destruct IH as (Hwf & Hheight & Hlinked).
    apply (appended_step _ _ _ _ _ _ Hwf) in Hadd as [_ ->].
    split; [by apply pushed_well_formed|].
    split; [simpl; lia | by apply linked_pushed].
Qed.

(** C4. In a store produced by the constructor and successful appends
    only, for every [h] from 1 to the height counter the blocks at [h] and
    [h - 1] exist, the first carries the hash of the second as its previous
    hash, and its height field is [h]. *)
Theorem appended_chain_is_linked (n : nat) (self : Blockchain) (h : Z) :
  appended n self → 1 ≤ h ≤ height self →
  ∃ current previous : Block,
    Js.index (chain self) h = Some current ∧
    Js.index (chain self) (h - 1) = Some previous ∧
    BlockClass.previousBlockHash current = BlockClass.hash previous ∧
    BlockClass.height current = h.
Proof.
  intros Happ Hh.
  destruct (appended_invariant n self Happ) as ([Hheight Hseq] & _ & Hlinked).
  destruct (index_is_Some (chain self) h) as [_ [current Hcur]]; [lia|].
  destruct (index_is_Some (chain self) (h - 1)) as [_ [previous Hprev]]; [lia|].
  exists current, previous. split_and!; [done..| |].
  - apply (Hlinked h); [lia|done..].
  - apply index_Some in Hcur as [? Hcur].
    rewrite (heights_sequential_lookup _ _ _ Hseq Hcur). lia.
Qed.

(** C5. After the constructor and [n] successful appends the height
    counter is [n] and the array holds [n + 1] blocks. *)
Theorem appended_height_and_length (n : nat) (self : Blockchain) :
  appended n self →
  height self = Z.of_nat n ∧ length (chain self) = (n + 1)%nat.
Proof.
  intros Happ.
  destruct (appended_invariant n self Happ) as ([Hheight _] & Hn & _).
  split; [done | lia].
Qed.

(** C10. When [_addBlock] rejects because the validator reported errors,
    the store is as before, and the candidate object has been written to:
    its previous hash is the hash of the last block of the chain, its height
    is the counter plus one, its time is the clock reading and its hash is
    the digest of the block with these three fields set; the payload is as
    it was. *)
Theorem addBlock_rejected_candidate_is_stamped (self : Blockchain) (block : Block) (now : string) :
  well_formed self → validateChain self ≠ [] →
  ∃ (candidate previous : Block),
    _addBlock self block now
      = (self, candidate, Reject (RejectErrors (validateChain self))) ∧
    last (chain self) = Some previous ∧
    BlockClass.previousBlockHash candidate = BlockClass.hash previous ∧
    BlockClass.height candidate = height self + 1 ∧
    BlockClass.time candidate = TimeString now ∧
    BlockClass.hash candidate
      = Some (sha256_json
                (BlockClass.set_time (TimeString now)
                   (BlockClass.set_height (height self + 1)
                      (BlockClass.set_previousBlockHash (BlockClass.hash previous)
                         block)))) ∧
    BlockClass.body candidate = BlockClass.body block.
Proof.
  intros [Hheight _] Herrors.
  destruct (last (chain self)) as [previous|] eqn:Hlast.
  - exists (sealed self block now), previous.
    rewrite (addBlock_sealed self block now Hheight).
    rewrite bool_decide_eq_false_2 by done.
    unfold sealed, stamped. rewrite Hlast. by split_and!.
  - apply last_None in Hlast. by apply validateChain_empty in Hlast.
Qed.

End AppendProperties.

(** ** Properties of the validator *)

(** C3. On a chain whose height fields are the array indices,
    [validateChain] returns, height by height in ascending order, the
    message of a failed self-validation and then, above height 0, the
    message of a previous hash that differs from the hash of the block
    below; a height adds at most two messages, every message of every
    height is in the result, and the result is empty exactly when the chain
    is consistent. *)
Theorem validateChain_reports_every_inconsistency `{!BlockMethods} (self : Blockchain) :
  heights_sequential (chain self) →
  validateChain self = inconsistencies (chain self) ∧
  (∀ h : Z, (length (errorsAtHeight (chain self) h) ≤ 2)%nat) ∧
  (∀ (h : Z) (e : string), 0 ≤ h < Z.of_nat (length (chain self)) →
     e ∈ errorsAtHeight (chain self) h → e ∈ validateChain self) ∧
  (validateChain self = [] ↔ consistent (chain self)).
Proof.
  intros Hseq. rewrite (validateChain_inconsistencies self Hseq).
  split_and!; [done|apply errorsAtHeight_length| |apply inconsistencies_nil].
  intros h e Hh He. apply elem_of_inconsistencies. by exists h.
Qed.

(** ** Properties of the ownership protocol *)

Section Ownership.
Context `{!BlockMethods, !Libraries}.

(** The time window is exceeded from 360 seconds on. *)
Lemma expired_iff (message now : string) (t c : Z) :
  messageTime message = Some t → Js.parseInt now = Some c →
  expired message now = true ↔ 360 ≤ c - t.
Proof.
  intros Ht Hc. unfold expired. rewrite Ht, Hc. simpl.
  rewrite bool_decide_eq_true.
  pose proof (Z.div_mod (c - t) 60) as Hdiv.
  pose proof (Z.mod_pos_bound (c - t) 60) as Hmod. lia.
Qed.

Lemma expired_NaN (message now : string) :
  messageTime message = None → expired message now = false.
Proof.
  intros Ht. unfold expired. rewrite Ht. by destruct (Js.parseInt now).
Qed.

Lemma verifyAndAdd_first_call (self : Blockchain)
    (address message signature star stamp : string) :
  (verifyAndAdd self address message signature star stamp).2 !! 0%nat
  = Some (CallVerify message address signature).
Proof.
  unfold verifyAndAdd.
  destruct (verify message address signature) as [[]|]; [|done..].
  by destruct (_addBlock _ _ _) as [[? ?] ?].
Qed.

Lemma addBlock_no_string (self : Blockchain) (block : Block) (now reason : string) :
  (_addBlock self block now).2 ≠ Reject (RejectString reason).
Proof.
  unfold _addBlock. repeat case_match; simpl; congruence.
Qed.

(** C1. With a message issued 301 seconds before the clock reading the
    time window is not exceeded and the call goes on to verify the
    signature; the same at 300 and at 359 seconds, and the window is
    exceeded at 360 seconds, where the call rejects without a call to the
    signature library. *)
Theorem submitStar_301_seconds_is_verified (self : Blockchain)
    (address signature star stamp : string) :
  let message := "walletA:1700000000:starRegistry" in
  expired message "1700000301" = false ∧
  submitStar self address message signature star "1700000301" stamp
    = verifyAndAdd self address message signature star stamp ∧
  (submitStar self address message signature star "1700000301" stamp).2 !! 0%nat
    = Some (CallVerify message address signature) ∧
  expired message "1700000300" = false ∧
  expired message "1700000359" = false ∧
  submitStar self address message signature star "1700000360" stamp
    = (self, Reject (RejectString expiredMessage), []).
Proof.
  intros message. split_and!; try reflexivity.
  apply verifyAndAdd_first_call.
Qed.

(** C7. Inside the time window, when the signature library returns false
    or throws, [submitStar] rejects (with ["Signature not valid"], or with
    the message of the thrown error), the store is the one before the call,
    and the only call made is the one to the signature library: [_addBlock]
    is not called. *)
Theorem submitStar_invalid_signature (self : Blockchain)
    (address message signature star now stamp : string) :
  expired message now = false →
  verify message address signature ≠ Returns true →
  ∃ reason : string,
    submitStar self address message signature star now stamp
      = (self, Reject (RejectString reason), [CallVerify message address signature]) ∧
    (verify message address signature = Returns false → reason = signatureMessage) ∧
    (∀ thrown, verify message address signature = Throws thrown → reason = thrown).
Proof.
  intros Hwindow Hverify. unfold submitStar, verifyAndAdd. rewrite Hwindow.
  destruct (verify message address signature) as [[]|thrown]; [done| |].
  - exists signatureMessage. by split_and!.
  - exists thrown. split_and!; [done..|]. by intros ? [= <-].
Qed.

(** C9. When the second field of the message is not a number, or is a
    time after the clock reading, the time window is not exceeded: the call
    is the verify-and-append branch, its first call is the one to the
    signature library, and it can reject with the text of the expiry error
    only if the signature library throws an error with that text. *)
Theorem submitStar_unparsable_or_future_time (self : Blockchain)
    (address message signature star now stamp : string) :
  messageTime message = None ∨
  (∃ t c : Z, messageTime message = Some t ∧ Js.parseInt now = Some c ∧ c < t) →
  expired message now = false ∧
  submitStar self address message signature star now stamp
    = verifyAndAdd self address message signature star stamp ∧
  (submitStar self address message signature star now stamp).2 !! 0%nat
    = Some (CallVerify message address signature) ∧
  ((submitStar self address message signature star now stamp).1.2
     = Reject (RejectString expiredMessage) →
   verify message address signature = Throws expiredMessage).
Proof.
  intros Htime.
  assert (expired message now = false) as Hwindow.
  { destruct Htime as [Hnan|(t & c & Ht & Hc & Hlt)]; [by apply expired_NaN|].
    apply not_true_is_false. rewrite (expired_iff message now t c Ht Hc). lia. }
  unfold submitStar. rewrite Hwindow.
  split_and!; [done..|apply verifyAndAdd_first_call|].
  unfold verifyAndAdd.
  destruct (verify message address signature) as [[]|thrown]; simpl.
  - pose proof (addBlock_no_string self (BlockClass.new (StarPayload address star))
                  stamp expiredMessage) as Hno.
    destruct (_addBlock _ _ _) as [[? ?] result]. simpl in *. done.
  - intros Heq. by vm_compute in Heq.
  - by intros [= ->].
Qed.

End Ownership.

(** ** Properties of the queries *)

Lemma find_miss (self : Blockchain) (hash : string) :
  Forall (λ block, BlockClass.hash block ≠ Some hash) (chain self) →
  List.find (λ p, bool_decide (BlockClass.hash p = Some hash)) (chain self) = None.
Proof.
  intros Hmiss.
  destruct (List.find _ _) as [block|] eqn:Hfind; [|done].
  apply List.find_some in Hfind as [Hin Hhash].
  apply bool_decide_eq_true in Hhash.
  rewrite Forall_forall in Hmiss.
  by destruct (Hmiss block); [apply list_elem_of_In|].
Qed.

(** C6, as amended. For a hash that no block of the chain has,
    [getBlockByHash] rejects with ["Block hash not found"]; for a height
    that no block of the chain has, [getBlockByHeight] resolves with
    [null]. *)
Theorem queries_on_a_miss (self : Blockchain) (hash : string) (h : Z) :
  (Forall (λ block, BlockClass.hash block ≠ Some hash) (chain self) →
   getBlockByHash self hash = Reject (RejectString hashNotFoundMessage)) ∧
  (Forall (λ block, BlockClass.height block ≠ h) (chain self) →
   getBlockByHeight self h = Resolve None).
Proof.
  split.
  - intros Hmiss. unfold getBlockByHash. by rewrite find_miss.
  - intros Hmiss. unfold getBlockByHeight.
    destruct (filter _ _) as [|block rest] eqn:Hfilter; [done|].
    assert (block ∈ filter (λ p, BlockClass.height p = h) (chain self)) as Hin
      by (rewrite Hfilter; left).
    apply list_elem_of_filter in Hin as [Hh Hin].
    rewrite Forall_forall in Hmiss. by destruct (Hmiss block).
Qed.

Section Stars.
Context `{!BlockMethods}.

Lemma foldl_stars (address : string) (blocks : list Block) (stars : list Payload) :
  foldl (λ stars block,
           match getBData block with
           | Some message =>
               if bool_decide (owner_of message = Some address)
               then stars ++ [message] else stars
           | None => stars
           end) stars blocks
  = stars ++ filter (λ m, owner_of m = Some address) (omap getBData blocks).
Proof.
  revert stars. induction blocks as [|block blocks IH]; intros stars; simpl.
  - by rewrite app_nil_r.
  - rewrite IH. destruct (getBData block) as [message|]; simpl; [|done].
    rewrite filter_cons. case_bool_decide.
    + rewrite decide_True by done. by rewrite <-(assoc_L (++)).
    + by rewrite decide_False by done.
Qed.

(** C8. [getStarsByWalletAddress] resolves with the decoded payloads whose
    owner is the address, in the order of the chain; a block that does not
    decode changes nothing in the result, and the result is empty when no
    decoded payload is owned by the address. *)
Theorem getStarsByWalletAddress_exact (self : Blockchain) (address : string) :
  getStarsByWalletAddress self address
    = Resolve (filter (λ m, owner_of m = Some address) (omap getBData (chain self))) ∧
  (∀ (before after : list Block) (block : Block),
     chain self = before ++ block :: after → getBData block = None →
     getStarsByWalletAddress self address
     = getStarsByWalletAddress (mkBlockchain (before ++ after) (height self)) address) ∧
  (Forall (λ m, owner_of m ≠ Some address) (omap getBData (chain self)) →
   getStarsByWalletAddress self address = Resolve []).
Proof.
  unfold getStarsByWalletAddress. rewrite !foldl_stars. simpl.
  split_and!; [done| |].
  - intros before after block -> Hnone. rewrite !foldl_stars. simpl.
    rewrite !omap_app. simpl. by rewrite Hnone.
  - intros Hnone. f_equal.
    destruct (filter _ _) as [|message rest] eqn:Hfilter; [done|].
    assert (message ∈ filter (λ m, owner_of m = Some address)
                        (omap getBData (chain self))) as Hin
      by (rewrite Hfilter; left).
    apply list_elem_of_filter in Hin as [Howner Hin].
    rewrite Forall_forall in Hnone. by destruct (Hnone message).
Qed.

End Stars.

(** ** Further properties of the store and the queries *)

Lemma index_nil {A} (i : Z) : Js.index (@nil A) i = None.
Proof. unfold Js.index. by case_bool_decide. Qed.

Lemma index_snoc {A} (a : list A) (x : A) (i : Z) :
  Js.index (a ++ [x]) i
  = if bool_decide (i = Z.of_nat (length a)) then Some x else Js.index a i.
Proof.
  unfold Js.index. case_bool_decide as Hpos.
  - case_bool_decide as Hi.
    + subst i. rewrite Nat2Z.id. apply list_lookup_middle. done.
    + destruct (decide (Z.to_nat i < length a)%nat).
      * by rewrite lookup_app_l.
      * rewrite !lookup_ge_None_2; [done|lia|rewrite length_app; simpl; lia].
  - rewrite bool_decide_eq_false_2 by lia. done.
Qed.

Lemma heights_sequential_snoc_inv (c : list Block) (block : Block) :
  heights_sequential (c ++ [block]) →
  heights_sequential c ∧ BlockClass.height block = Z.of_nat (length c).
Proof.
  unfold heights_sequential.
  rewrite fmap_app, length_app, Nat2Z.inj_add, seqZ_app by lia. simpl.
  intros Heq. apply app_inj_1 in Heq as [Hc Hb].
  - split; [done|]. by injection Hb.
  - by rewrite length_fmap, length_seqZ, Nat2Z.id.
Qed.

(** On an array whose heights are its indices, the blocks with height
    field [h] are the block at index [h], if there is one. *)
Lemma filter_height (c : list Block) (h : Z) :
  heights_sequential c →
  filter (λ p, BlockClass.height p = h) c = option_list (Js.index c h).
Proof.
  induction c as [|block c IH] using rev_ind; intros Hseq.
  - by rewrite index_nil.
  - apply heights_sequential_snoc_inv in Hseq as [Hseq Hblock].
    rewrite filter_app, (IH Hseq), index_snoc, filter_cons, filter_nil.
    case_bool_decide as Hh.
    + rewrite decide_True by congruence.
      destruct (Js.index c h) as [other|] eqn:Hother; [|done].
      apply mk_is_Some, index_is_Some in Hother. lia.
    + rewrite decide_False by congruence. by rewrite app_nil_r.
Qed.

Lemma list_find_height (c : list Block) (h : Z) (block : Block) :
  heights_sequential c → Js.index c h = Some block →
  list_find (λ p, BlockClass.height p = h) c = Some (Z.to_nat h, block).
Proof.
  intros Hseq Hblock. apply index_Some in Hblock as [Hpos Hblock].
  apply list_find_Some. split_and!; [done| |].
  - rewrite (heights_sequential_lookup _ _ _ Hseq Hblock). lia.
  - intros j other Hother Hlt.
    rewrite (heights_sequential_lookup _ _ _ Hseq Hother). lia.
Qed.

Lemma list_find_height_None (c : list Block) (h : Z) :
  heights_sequential c → Js.index c h = None →
  list_find (λ p, BlockClass.height p = h) c = None.
Proof.
  intros Hseq Hnone. apply list_find_None, Forall_forall.
  intros block Hin Hh. apply list_elem_of_lookup in Hin as [i Hi].
  rewrite (heights_sequential_lookup _ _ _ Hseq Hi) in Hh. subst h.
  rewrite index_of_nat in Hnone. congruence.
Qed.

Lemma find_app_miss {A} (f : A → bool) (l k : list A) :
  List.find f l = None → List.find f (l ++ k) = List.find f k.
Proof.
  induction l as [|x l IH]; simpl; [done|]. by destruct (f x).
Qed.

Section StoreProperties.
Context `{!BlockMethods, !Libraries}.

Lemma addBlock_store (self : Blockchain) (block : Block) (now : string) :
  (_addBlock self block now).1.1 = self ∨
  ∃ added : Block, (_addBlock self block now).1.1 = pushed self added.
Proof.
  unfold _addBlock, pushed. repeat case_match; simpl; eauto.
Qed.

Lemma tamper_length (update : Block → Block) (self : Blockchain) (h : Z) :
  length (chain (tamper update self h).1) = length (chain self).
Proof.
  unfold tamper. destruct (list_find _ _) as [[i block]|]; [|done].
  simpl. by rewrite length_insert.
Qed.

(** X2. On a well-formed store [getBlockByHeight] resolves, for a height
    from 0 to the counter, with the block at that index, whose height field
    is the height asked for; for any other height it resolves with [null]. *)
Theorem getBlockByHeight_in_and_out_of_range (self : Blockchain) (h : Z) :
  well_formed self →
  (0 ≤ h ≤ height self →
   ∃ block : Block,
     getBlockByHeight self h = Resolve (Some block) ∧
     Js.index (chain self) h = Some block ∧
     BlockClass.height block = h) ∧
  (h < 0 ∨ height self < h → getBlockByHeight self h = Resolve None).
Proof.
  intros [Hheight Hseq]. unfold getBlockByHeight.
  rewrite (filter_height _ h Hseq). split.
  - intros Hh.
    destruct (index_is_Some (chain self) h) as [_ [block Hblock]]; [lia|].
    exists block. rewrite Hblock. split_and!; [done..|].
    apply index_Some in Hblock as [? Hblock].
    rewrite (heights_sequential_lookup _ _ _ Hseq Hblock). lia.
  - intros Hh. destruct (Js.index (chain self) h) as [block|] eqn:Hblock; [|done].
    apply mk_is_Some, index_is_Some in Hblock. lia.
Qed.

(** X3. When some block of the chain has the hash asked for,
    [getBlockByHash] resolves, with a block of the chain that has this
    hash, and none of the blocks before it in the array has it. *)
Theorem getBlockByHash_hit (self : Blockchain) (hash : string) :
  Exists (λ block, BlockClass.hash block = Some hash) (chain self) →
  ∃ (i : nat) (found : Block),
    getBlockByHash self hash = Resolve found ∧
    chain self !! i = Some found ∧
    BlockClass.hash found = Some hash ∧
    ∀ (j : nat) (block : Block), chain self !! j = Some block → (j < i)%nat →
      BlockClass.hash block ≠ Some hash.
Proof.
  unfold getBlockByHash. induction 1 as [block rest Hhash|block rest _ IH]; simpl.
  - rewrite bool_decide_eq_true_2 by done.
    exists 0%nat, block. split_and!; [done..|]. intros j other _ Hlt. lia.
  - case_bool_decide as Hhash.
    + exists 0%nat, block. split_and!; [done..|]. intros j other _ Hlt. lia.
    + destruct IH as (i & found & Hfind & Hi & Hfound & Hfirst).
      exists (S i), found. split_and!; [done..|].
      intros [|j] other Hother Hlt; simpl in Hother.
      * by injection Hother as <-.
      * apply (Hfirst j); [done|lia].
Qed.

(** X4. After an append that succeeds on a well-formed store, the height
    the store reports is one more, the by-height query at that height
    resolves with the appended block, and the by-hash query at the block's
    hash resolves with it provided no earlier block has the same hash. *)
Theorem addBlock_then_queries (self : Blockchain) (block : Block) (now : string) :
  well_formed self → validateChain self = [] →
  ∃ (added : Block) (hash : string),
    _addBlock self block now = (pushed self added, added, Resolve added) ∧
    BlockClass.hash added = Some hash ∧
    getChainHeight (pushed self added) = height self + 1 ∧
    getBlockByHeight (pushed self added) (height self + 1) = Resolve (Some added) ∧
    (Forall (λ earlier, BlockClass.hash earlier ≠ Some hash) (chain self) →
     getBlockByHash (pushed self added) hash = Resolve added).
Proof.
  intros Hwf Hvalid.
  exists (sealed self block now), (sha256_json (stamped self block now)).
  rewrite addBlock_sealed by apply Hwf. rewrite bool_decide_eq_true_2 by done.
  split_and!; [done..| |].
  - destruct (pushed_well_formed self block now Hwf) as [_ Hseq].
    unfold getBlockByHeight. rewrite (filter_height _ _ Hseq). simpl.
    rewrite index_snoc, bool_decide_eq_true_2; [done|]. destruct Hwf; lia.
  - intros Hfresh. unfold getBlockByHash. simpl.
    rewrite find_app_miss by (by apply find_miss). simpl.
    by rewrite bool_decide_eq_true_2.
Qed.

(** X10. [_addBlock] and [submitStar] only ever add to the end of the
    array: the chain before the call is a prefix of the chain after it, and
    the height counter does not go down. *)
Theorem appends_keep_earlier_blocks (self : Blockchain) (block : Block)
    (address message signature star now stamp : string) :
  (chain self `prefix_of` chain (_addBlock self block now).1.1 ∧
   height self ≤ height (_addBlock self block now).1.1) ∧
  (chain self `prefix_of`
     chain (submitStar self address message signature star now stamp).1.1 ∧
   height self ≤ height (submitStar self address message signature star now stamp).1.1).
Proof.
  assert (∀ candidate clock,
            chain self `prefix_of` chain (_addBlock self candidate clock).1.1 ∧
            height self ≤ height (_addBlock self candidate clock).1.1) as Hadd.
  { intros candidate clock.
    destruct (addBlock_store self candidate clock) as [->|[added ->]]; [done|].
    simpl. split; [by apply prefix_app_r | lia]. }
  split; [apply Hadd|].
  destruct (submitStar_store self address message signature star now stamp)
    as [->| ->]; [done | apply Hadd].
Qed.

(** X11. In a store produced by the constructor and successful appends
    only, the first block is the Genesis Block: its payload is
    [{data: 'Genesis Block'}], its height is 0 and it has no previous hash. *)
Theorem appended_genesis (n : nat) (self : Blockchain) :
  appended n self →
  ∃ genesis : Block,
    Js.index (chain self) 0 = Some genesis ∧
    BlockClass.body genesis = DataPayload "Genesis Block" ∧
    BlockClass.height genesis = 0 ∧
    BlockClass.previousBlockHash genesis = None.
Proof.
  induction 1 as [now|n self block now self' block' sealed' Happ IH Hadd].
  - eexists. by split_and!.
  - destruct IH as (genesis & Hgenesis & Hfields).
    exists genesis. split; [|done].
    destruct (appended_invariant n self Happ) as (Hwf & _).
    apply (appended_step _ _ _ _ _ _ Hwf) in Hadd as [_ ->]. simpl.
    rewrite index_snoc, bool_decide_eq_false_2; [done|].
    apply mk_is_Some, index_is_Some in Hgenesis. lia.
Qed.


End StoreProperties.

(** ** Further properties of the tamper hooks and of the ownership protocol *)

Lemma split_colon_no_colon (s : string) :
  hasColon s = false → Js.split_colon s = [s].
Proof.
  induction s as [|a s IH]; simpl; [done|].
  case_bool_decide; [done|]. intros Hs. by rewrite (IH Hs).
Qed.

Lemma split_colon_field (s rest : string) :
  hasColon s = false →
  Js.split_colon (s +:+ String ":"%char rest) = s :: Js.split_colon rest.
Proof.
  induction s as [|a s IH].
  - intros _. reflexivity.
  - simpl. case_bool_decide; [done|]. intros Hs. by rewrite (IH Hs).
Qed.

Section TamperAndOwnership.
Context `{!BlockMethods, !Libraries}.

Lemma tamper_in_range (update : Block → Block) (self : Blockchain) (h : Z) (block : Block) :
  well_formed self → Js.index (chain self) h = Some block →
  tamper update self h
  = (mkBlockchain (<[Z.to_nat h := update block]> (chain self)) (height self),
     Some (update block)).
Proof.
  intros [_ Hseq] Hblock. unfold tamper.
  by rewrite (list_find_height _ _ _ Hseq Hblock).
Qed.

Lemma tamper_out_of_range (update : Block → Block) (self : Blockchain) (h : Z) :
  well_formed self → Js.index (chain self) h = None →
  tamper update self h = (self, None).
Proof.
  intros [_ Hseq] Hnone. unfold tamper.
  by rewrite (list_find_height_None _ _ Hseq Hnone).
Qed.

(** X5. On a well-formed store, after [tamperWithChain(h)] for a height
    from 1 to the counter whose block below does not have the hash
    ["123456"], [validateChain] reports the previous-hash error of height
    [h], and every later [_addBlock] rejects with the validator's list and
    leaves the store as it is. *)
Theorem tamperWithChain_is_detected (self : Blockchain) (h : Z)
    (previous block : Block) (now : string) :
  well_formed self → 1 ≤ h ≤ height self →
  Js.index (chain self) (h - 1) = Some previous →
  BlockClass.hash previous ≠ Some "123456" →
  previousHashMessage h ∈ validateChain (tamperWithChain self h).1 ∧
  (_addBlock (tamperWithChain self h).1 block now).1.1 = (tamperWithChain self h).1 ∧
  (_addBlock (tamperWithChain self h).1 block now).2
    = Reject (RejectErrors (validateChain (tamperWithChain self h).1)).
Proof.
  intros Hwf Hh Hprev Hhash.
  assert (well_formed (tamperWithChain self h).1) as Hwf'
    by (by apply tamper_well_formed).
  destruct (index_is_Some (chain self) h) as [_ [current Hcur]];
    [destruct Hwf; lia|].
  assert (previousHashMessage h ∈ validateChain (tamperWithChain self h).1) as Hin.
  { rewrite validateChain_inconsistencies by apply Hwf'.
    unfold tamperWithChain in *. rewrite (tamper_in_range _ _ _ _ Hwf Hcur). simpl.
    apply index_Some in Hcur as [_ Hcur]. apply index_Some in Hprev as [_ Hprev].
    apply elem_of_inconsistencies. exists h. split.
    - rewrite length_insert. destruct Hwf; lia.
    - unfold errorsAtHeight, linkageErrors. apply elem_of_app. right.
      assert (Js.index (<[Z.to_nat h := BlockClass.set_previousBlockHash
                                          (Some "123456") current]> (chain self)) h
              = Some (BlockClass.set_previousBlockHash (Some "123456") current)) as ->.
      { apply index_Some. split; [lia|].
        apply list_lookup_insert_eq. by apply lookup_lt_Some in Hcur. }
      assert (Js.index (<[Z.to_nat h := BlockClass.set_previousBlockHash
                                          (Some "123456") current]> (chain self)) (h - 1)
              = Some previous) as ->.
      { apply index_Some. split; [lia|].
        rewrite list_lookup_insert_ne by lia. done. }
      rewrite bool_decide_eq_true_2; [left|]. split; [lia|]. simpl. congruence. }
  split; [done|].
  rewrite addBlock_sealed by apply Hwf'.
  rewrite bool_decide_eq_false_2; [done|].
  intros Hnil. rewrite Hnil in Hin. by apply elem_of_nil in Hin.
Qed.

(** X6. On a well-formed store [tamperWithBlock(h)] returns [null] and
    changes nothing when no block has height [h]; otherwise it returns the
    block at index [h] with its time set to the number 3, writes that block
    at index [h], and leaves the counter, the length of the array, every
    other block, and the hash, height, payload and previous hash of the
    block itself as they were. *)
Theorem tamperWithBlock_frame (self : Blockchain) (h : Z) :
  well_formed self →
  (Js.index (chain self) h = None → tamperWithBlock self h = (self, None)) ∧
  (∀ block : Block, Js.index (chain self) h = Some block →
     ∃ tampered : Block,
       (tamperWithBlock self h).2 = Some tampered ∧
       Js.index (chain (tamperWithBlock self h).1) h = Some tampered ∧
       BlockClass.time tampered = TimeNumber 3 ∧
       BlockClass.hash tampered = BlockClass.hash block ∧
       BlockClass.height tampered = BlockClass.height block ∧
       BlockClass.body tampered = BlockClass.body block ∧
       BlockClass.previousBlockHash tampered = BlockClass.previousBlockHash block ∧
       height (tamperWithBlock self h).1 = height self ∧
       length (chain (tamperWithBlock self h).1) = length (chain self) ∧
       ∀ k : Z, k ≠ h →
         Js.index (chain (tamperWithBlock self h).1) k = Js.index (chain self) k).
Proof.
  intros Hwf. unfold tamperWithBlock. split.
  - by apply tamper_out_of_range.
  - intros block Hblock. rewrite (tamper_in_range _ _ _ _ Hwf Hblock). simpl.
    apply index_Some in Hblock as [Hpos Hblock].
    exists (BlockClass.set_time (TimeNumber 3) block).
    split_and!; try done.
    + apply index_Some. split; [done|].
      apply list_lookup_insert_eq. by apply lookup_lt_Some in Hblock.
    + by rewrite length_insert.
    + intros k Hk. unfold Js.index. case_bool_decide; [|done].
      apply list_lookup_insert_ne. lia.
Qed.

Lemma submitStar_verified (self : Blockchain)
    (address message signature star now stamp : string) :
  expired message now = false →
  verify message address signature = Returns true →
  submitStar self address message signature star now stamp
  = ((_addBlock self (BlockClass.new (StarPayload address star)) stamp).1.1,
     (_addBlock self (BlockClass.new (StarPayload address star)) stamp).2,
     [CallVerify message address signature;
      CallAddBlock (BlockClass.new (StarPayload address star))]).
Proof.
  intros Hwindow Hverify. unfold submitStar, verifyAndAdd.
  rewrite Hwindow, Hverify. by destruct (_addBlock _ _ _) as [[? ?] ?].
Qed.

(** X7. Inside the time window and with a signature the library accepts,
    [submitStar] on a well-formed store whose chain validates appends one
    block and resolves with it: the block carries [{owner: address, star}],
    the next height, the clock reading of the append and the hash of the
    last block as previous hash; the calls made are the one to the
    signature library and then the one to [_addBlock]. *)
Theorem submitStar_appends_the_star (self : Blockchain)
    (address message signature star now stamp : string) :
  expired message now = false →
  verify message address signature = Returns true →
  well_formed self → validateChain self = [] →
  ∃ added : Block,
    submitStar self address message signature star now stamp
      = (pushed self added, Resolve added,
         [CallVerify message address signature;
          CallAddBlock (BlockClass.new (StarPayload address star))]) ∧
    BlockClass.body added = StarPayload address star ∧
    BlockClass.height added = height self + 1 ∧
    BlockClass.time added = TimeString stamp ∧
    ∀ previous : Block, last (chain self) = Some previous →
      BlockClass.previousBlockHash added = BlockClass.hash previous.
Proof.
  intros Hwindow Hverify Hwf Hvalid.
  exists (sealed self (BlockClass.new (StarPayload address star)) stamp).
  rewrite (submitStar_verified _ _ _ _ _ _ _ Hwindow Hverify).
  rewrite addBlock_sealed by apply Hwf. rewrite bool_decide_eq_true_2 by done.
  split_and!; [done| | | |].
  - unfold sealed, stamped. by destruct (last (chain self)).
  - unfold sealed, stamped. by destruct (last (chain self)).
  - unfold sealed, stamped. by destruct (last (chain self)).
  - intros previous Hlast. by apply sealed_previousBlockHash.
Qed.

(** X8. Inside the time window and with a signature the library accepts,
    [submitStar] on a well-formed store whose chain does not validate
    rejects with the validator's error list as it is, and the store is the
    one before the call. *)
Theorem submitStar_propagates_validation_errors (self : Blockchain)
    (address message signature star now stamp : string) :
  expired message now = false →
  verify message address signature = Returns true →
  well_formed self → validateChain self ≠ [] →
  submitStar self address message signature star now stamp
  = (self, Reject (RejectErrors (validateChain self)),
     [CallVerify message address signature;
      CallAddBlock (BlockClass.new (StarPayload address star))]).
Proof.
  intros Hwindow Hverify Hwf Herrors.
  rewrite (submitStar_verified _ _ _ _ _ _ _ Hwindow Hverify).
  rewrite addBlock_sealed by apply Hwf. by rewrite bool_decide_eq_false_2.
Qed.

(** X9. The challenge [requestMessageOwnershipVerification] issues for an
    address without a colon carries the clock reading of its issuance as
    its time, and [submitStar] finds the time window exceeded exactly when
    360 seconds or more have passed since then. *)
Theorem challenge_window (address issued now : string) (s c : Z) :
  hasColon address = false → hasColon issued = false →
  Js.parseInt issued = Some s → Js.parseInt now = Some c →
  messageTime (requestMessageOwnershipVerification address issued) = Some s ∧
  (expired (requestMessageOwnershipVerification address issued) now = true
   ↔ 360 ≤ c - s).
Proof.
  intros Haddress Hissued Hs Hc.
  assert (messageTime (requestMessageOwnershipVerification address issued) = Some s)
    as Htime.
  { unfold messageTime, requestMessageOwnershipVerification.
    change (":" +:+ issued +:+ ":starRegistry")
      with (String ":"%char (issued +:+ String ":"%char "starRegistry")).
    rewrite (split_colon_field _ _ Haddress), (split_colon_field _ _ Hissued).
    done. }
  split; [done|]. by apply expired_iff.
Qed.

(** X14. A challenge is not used up: when one submission has passed the
    time window and the signature check and reached [_addBlock], a later
    submission of the same address, message and signature that is still
    inside the window reaches [_addBlock] too, on any store and with any
    star. *)
Theorem submitStar_challenge_is_reusable (self self' : Blockchain)
    (address message signature star star' now now' stamp stamp' : string) :
  (submitStar self address message signature star now stamp).2 !! 1%nat
    = Some (CallAddBlock (BlockClass.new (StarPayload address star))) →
  expired message now' = false →
  (submitStar self' address message signature star' now' stamp').2
  = [CallVerify message address signature;
     CallAddBlock (BlockClass.new (StarPayload address star'))].
Proof.
  intros Hfirst Hwindow.
  assert (verify message address signature = Returns true) as Hverify.
  { unfold submitStar, verifyAndAdd in Hfirst.
    destruct (expired message now); [done|].
    by destruct (verify message address signature) as [[]|]. }
  by rewrite (submitStar_verified _ _ _ _ _ _ _ Hwindow Hverify).
Qed.

End TamperAndOwnership.

Section StarsAfterSubmit.
Context `{!BlockMethods, !Libraries}.

Lemma getStarsByWalletAddress_core (self : Blockchain) (address : string) :
  getStarsByWalletAddress self address
  = Resolve (filter (λ m, owner_of m = Some address) (omap getBData (chain self))).
Proof. unfold getStarsByWalletAddress. by rewrite foldl_stars. Qed.

Lemma stars_pushed (self : Blockchain) (block : Block) (address : string) :
  getStarsByWalletAddress (pushed self block) address
  = Resolve
      (filter (λ m, owner_of m = Some address) (omap getBData (chain self))
       ++ filter (λ m, owner_of m = Some address) (option_list (getBData block))).
Proof.
  unfold getStarsByWalletAddress. rewrite foldl_stars. simpl.
  rewrite omap_app, filter_app. simpl. by destruct (getBData block).
Qed.

(** X13. After a [submitStar] that appends, when the appended block
    decodes to the payload it was built from, the stars of the submitting
    address are the ones before followed by the new payload, and the stars
    of every other address are the ones before. *)
Theorem submitStar_then_stars (self : Blockchain)
    (address message signature star now stamp : string) :
  expired message now = false →
  verify message address signature = Returns true →
  well_formed self → validateChain self = [] →
  getBData (sealed self (BlockClass.new (StarPayload address star)) stamp)
    = Some (StarPayload address star) →
  ∃ stars : list Payload,
    getStarsByWalletAddress self address = Resolve stars ∧
    getStarsByWalletAddress
      (submitStar self address message signature star now stamp).1.1 address
      = Resolve (stars ++ [StarPayload address star]) ∧
    ∀ other : string, other ≠ address →
      getStarsByWalletAddress
        (submitStar self address message signature star now stamp).1.1 other
      = getStarsByWalletAddress self other.
Proof.
  intros Hwindow Hverify Hwf Hvalid Hdecode.
  rewrite (submitStar_verified _ _ _ _ _ _ _ Hwindow Hverify).
  rewrite addBlock_sealed by apply Hwf. rewrite bool_decide_eq_true_2 by done.
  simpl. eexists. split; [apply getStarsByWalletAddress_core|].
  split.
  - rewrite stars_pushed, Hdecode. simpl.
    by rewrite filter_cons, decide_True, filter_nil.
  - intros other Hother. rewrite stars_pushed, Hdecode. simpl.
    rewrite filter_cons, decide_False, filter_nil, app_nil_r
      by (simpl; congruence).
    symmetry. apply getStarsByWalletAddress_core.
Qed.

End StarsAfterSubmit.

Section TamperedTime.
Context `{!BlockMethods, !Libraries}.

Lemma index_insert {A} (a : list A) (i : nat) (x y : A) (k : Z) :
  a !! i = Some x →
  Js.index (<[i := y]> a) k
  = if bool_decide (k = Z.of_nat i) then Some y else Js.index a k.
Proof.
  intros Hi. unfold Js.index. destruct (decide (k = Z.of_nat i)) as [->|Hk].
  - rewrite !bool_decide_eq_true_2, Nat2Z.id by lia.
    apply list_lookup_insert_eq. by apply lookup_lt_Some in Hi.
  - rewrite (bool_decide_eq_false_2 (k = Z.of_nat i)) by done.
    case_bool_decide; [|done]. apply list_lookup_insert_ne. lia.
Qed.

(** X15. On a well-formed store [tamperWithBlock] does not touch the links:
    at every height the previous-hash check of [validateChain] gives after
    the call what it gave before, so the changed time can only show in the
    block's own validation. *)
Theorem tamperWithBlock_keeps_links (self : Blockchain) (h k : Z) :
  well_formed self →
  linkageErrors (chain (tamperWithBlock self h).1) k = linkageErrors (chain self) k.
Proof.
  intros Hwf. unfold tamperWithBlock.
  destruct (Js.index (chain self) h) as [block|] eqn:Hblock;
    [|by rewrite (tamper_out_of_range _ _ _ Hwf Hblock)].
  rewrite (tamper_in_range _ _ _ _ Hwf Hblock). simpl.
  apply index_Some in Hblock as [Hpos Hblock].
  unfold linkageErrors. rewrite !(index_insert _ _ block) by done.
  rewrite Z2Nat.id by done.
  assert (Js.index (chain self) h = Some block) as Hh
    by (by apply index_Some).
  destruct (decide (k = h)) as [->|Hk]; [|destruct (decide (k - 1 = h)) as [Hk'|Hk']].
  - rewrite bool_decide_eq_true_2, bool_decide_eq_false_2, Hh by lia.
    by destruct (Js.index (chain self) (h - 1)).
  - rewrite bool_decide_eq_false_2, bool_decide_eq_true_2, Hk', Hh by lia.
    by destruct (Js.index (chain self) k).
  - by rewrite !bool_decide_eq_false_2 by lia.
Qed.

End TamperedTime.

(** ** Properties of runs with calls under way *)

Section RunProperties.
Context `{!BlockMethods, !Libraries}.

Lemma stampCallback_height (height' : Z) (self : Blockchain) (block stamped' : Block)
    (now : string) :
  stampCallback height' self block now = Some stamped' →
  BlockClass.height stamped' = height' + 1.
Proof.
  unfold stampCallback. case_bool_decide; [destruct (Js.index _ _)|]; simpl;
    by intros [= <-].
Qed.

(** [_addBlock] run on its own is its first callback on the store as it
    was at the call, followed by the push or the rejection. *)
Lemma addBlock_stampCallback (self : Blockchain) (block : Block) (now : string) :
  _addBlock self block now
  = match stampCallback (height self) self block now with
    | Some stamped' =>
        if bool_decide (length (validateChain self) = 0%nat)
        then (mkBlockchain (chain self ++ [stamped']) (height self + 1),
              stamped', Resolve stamped')
        else (self, stamped', Reject (RejectErrors (validateChain self)))
    | None => (self, block, Reject RejectTypeError)
    end.
Proof.
  unfold _addBlock, stampCallback, getChainHeight.
  case_bool_decide; [destruct (Js.index _ _)|]; done.
Qed.

Lemma addBlock_run_from_read (self : Blockchain) (calls : list InFlight)
    (block : Block) (now : string) :
  rtc step (mkWorld self (calls ++ [HeightRead (height self) block]))
           (mkWorld (_addBlock self block now).1.1 calls).
Proof.
  eapply rtc_l; [apply (step_stamp self calls [] (height self) block now)|].
  rewrite addBlock_stampCallback.
  destruct (stampCallback (height self) self block now) as [stamped'|]; simpl.
  - apply rtc_once.
    replace calls with (calls ++ []) at 2 by apply app_nil_r.
    case_bool_decide; simpl; [apply step_push | apply step_reject].
  - by rewrite app_nil_r.
Qed.

Lemma addBlock_run (self : Blockchain) (calls : list InFlight)
    (block : Block) (now : string) :
  rtc step (mkWorld self calls) (mkWorld (_addBlock self block now).1.1 calls).
Proof.
  eapply rtc_l; [apply (step_call self calls block)|].
  apply addBlock_run_from_read.
Qed.

(** The stores of whole calls made one after the other are stores of
    runs, with no call under way. *)
Lemma reachable_runs (self : Blockchain) :
  reachable self → rtc step afterNew (mkWorld self []).
Proof.
  induction 1 as [now|self block now _ IH
                 |self address message signature star now stamp _ IH
                 |self h _ IH|self h _ IH].
  - apply (addBlock_run_from_read (mkBlockchain [] (-1)) []
             (BlockClass.new (DataPayload "Genesis Block")) now).
  - etrans; [exact IH | apply addBlock_run].
  - destruct (submitStar_store self address message signature star now stamp)
      as [->| ->]; [done|]. etrans; [exact IH | apply addBlock_run].
  - eapply rtc_r; [exact IH | apply step_tamperWithBlock].
  - eapply rtc_r; [exact IH | apply step_tamperWithChain].
Qed.

Lemma tamper_height (update : Block → Block) (self : Blockchain) (h : Z) :
  height (tamper update self h).1 = height self.
Proof. unfold tamper. by destruct (list_find _ _) as [[i block]|]. Qed.

Lemma tamper_heights_bounded (update : Block → Block) (self : Blockchain) (h : Z) :
  (∀ b, BlockClass.height (update b) = BlockClass.height b) →
  heights_bounded (chain self) → heights_bounded (chain (tamper update self h).1).
Proof.
  intros Hupdate Hbounded. unfold tamper.
  destruct (list_find _ _) as [[j found]|] eqn:Hfind; [|done]. simpl.
  apply list_find_Some in Hfind as (Hj & _ & _).
  intros i block Hi. destruct (decide (i = j)) as [->|Hne].
  - rewrite list_lookup_insert_eq in Hi by (by apply lookup_lt_Some in Hj).
    injection Hi as <-. rewrite Hupdate. by apply Hbounded.
  - rewrite list_lookup_insert_ne in Hi by done. by apply Hbounded.
Qed.

Lemma tamper_invariant (update : Block → Block) (self : Blockchain) (h : Z)
    (calls : list InFlight) :
  (∀ b, BlockClass.height (update b) = BlockClass.height b) →
  run_invariant (mkWorld self calls) →
  run_invariant (mkWorld (tamper update self h).1 calls).
Proof.
  intros Hupdate (Hheight & Hbounded & Hcalls). split_and!; simpl in *.
  - by rewrite tamper_height, tamper_length.
  - by apply tamper_heights_bounded.
  - eapply Forall_impl; [exact Hcalls|]. intros call.
    unfold inFlight_bounded. by rewrite tamper_height.
Qed.

Lemma step_invariant (w w' : World) :
  step w w' → run_invariant w → run_invariant w'.
Proof.
  intros Hstep.
  destruct Hstep as [self calls block|self before after height' block now
                    |self before after block|self before after block
                    |self calls h|self calls h];
    [| | | |by apply tamper_invariant..].
  - intros (Hheight & Hbounded & Hcalls). split_and!; simpl in *; [done..|].
    apply Forall_app. split; [done|]. apply Forall_singleton. simpl. lia.
  - intros (Hheight & Hbounded & Hcalls). split_and!; simpl in *; [done..|].
    apply Forall_app in Hcalls as [Hbefore Hcalls].
    apply Forall_cons in Hcalls as [Hread Hafter]. simpl in Hread.
    apply Forall_app. split; [done|]. apply Forall_app. split; [|done].
    destruct (stampCallback height' self block now) as [stamped'|] eqn:Hstamp;
      simpl; [|done].
    apply Forall_singleton. simpl.
    rewrite (stampCallback_height _ _ _ _ _ Hstamp). lia.
  - intros (Hheight & Hbounded & Hcalls). simpl in *.
    apply Forall_app in Hcalls as [Hbefore Hcalls].
    apply Forall_cons in Hcalls as [Hstamped Hafter]. simpl in Hstamped.
    split_and!; simpl.
    + rewrite length_app. simpl. lia.
    + intros i other Hi. apply lookup_snoc_Some in Hi as [[_ Hi]|[-> <-]];
        [by apply Hbounded | lia].
    + apply Forall_app. split.
      * eapply Forall_impl; [exact Hbefore|].
        intros [] ?; simpl in *; lia.
      * eapply Forall_impl; [exact Hafter|].
        intros [] ?; simpl in *; lia.
  - intros (Hheight & Hbounded & Hcalls). split_and!; simpl in *; [done..|].
    apply Forall_app in Hcalls as [Hbefore Hcalls].
    apply Forall_cons in Hcalls as [_ Hafter].
    apply Forall_app. by split.
Qed.

(** X1. At every point of every run that starts from what [new] hands
    back, the genesis append still under way, calls of [_addBlock]
    overlapping and the tamper hooks in between, the height counter is the
    last index of the array, and the height field of each block is at least
    0 and at most the block's index. *)
Theorem run_store_invariant (w : World) :
  rtc step afterNew w →
  height (store w) = Z.of_nat (length (chain (store w))) - 1 ∧
  ∀ (i : nat) (block : Block), chain (store w) !! i = Some block →
    0 ≤ BlockClass.height block ≤ Z.of_nat i.
Proof.
  intros Hrun.
  assert (run_invariant w) as (Hheight & Hbounded & _); [|done].
  revert w Hrun. apply (rtc_ind_r run_invariant).
  - split_and!; [done| |].
    + intros i block Hi. done.
    + apply Forall_singleton. simpl. lia.
  - intros w w' _ Hstep IH. by apply (step_invariant w).
Qed.

End RunProperties.

(** ** The properties at concrete stores *)

Import Fixture.

Ltac well_formed_by_computation := split; vm_compute; reflexivity.

Ltac one_more_append before payload now :=
  apply (appended_S _ before (BlockClass.new payload) now _
           (sealed before (BlockClass.new payload) now)
           (sealed before (BlockClass.new payload) now));
  [|vm_compute; reflexivity].

Lemma addBlock_commits_or_has_no_effect_witness :
  (well_formed tamperedLink ∧ validateChain tamperedLink ≠ [] ∧
   (_addBlock tamperedLink (BlockClass.new (StarPayload "walletC" "ra=7,dec=8"))
      "1700000400").2
     = Reject (RejectErrors (validateChain tamperedLink)) ∧
   (_addBlock tamperedLink (BlockClass.new (StarPayload "walletC" "ra=7,dec=8"))
      "1700000400").1.1 = tamperedLink) ∧
  (well_formed threeStars ∧ validateChain threeStars = [] ∧
   ∃ added : Block,
     (_addBlock threeStars (BlockClass.new (StarPayload "walletC" "ra=7,dec=8"))
        "1700000400").2 = Resolve added ∧
     chain (_addBlock threeStars (BlockClass.new (StarPayload "walletC" "ra=7,dec=8"))
              "1700000400").1.1 = chain threeStars ++ [added] ∧
     (_addBlock threeStars (BlockClass.new (StarPayload "walletC" "ra=7,dec=8"))
        "1700000400").1.2 = added ∧
     BlockClass.body added = StarPayload "walletC" "ra=7,dec=8" ∧
     BlockClass.height added = 4 ∧
     BlockClass.time added = TimeString "1700000400").
Proof.
  assert (well_formed tamperedLink) as Hwf by well_formed_by_computation.
  assert (validateChain tamperedLink ≠ []) as Herrors by (vm_compute; discriminate).
  assert (well_formed threeStars) as Hwf' by well_formed_by_computation.
  assert (validateChain threeStars = []) as Hvalid by (vm_compute; reflexivity).
  split.
  - split; [exact Hwf|]. split; [exact Herrors|].
    apply (proj1 (addBlock_commits_or_has_no_effect tamperedLink
                    (BlockClass.new (StarPayload "walletC" "ra=7,dec=8"))
                    "1700000400" Hwf) Herrors).
  - split; [exact Hwf'|]. split; [exact Hvalid|].
    destruct (proj1 (proj2 (addBlock_commits_or_has_no_effect threeStars
                              (BlockClass.new (StarPayload "walletC" "ra=7,dec=8"))
                              "1700000400" Hwf')) Hvalid)
      as (added & Hresult & Hchain & _ & Hcandidate & Hadded).
    exists added. split; [exact Hresult|]. split; [exact Hchain|].
    split; [exact Hcandidate|]. rewrite Hadded. split; [|split]; reflexivity.
Defined.

Lemma validateChain_reports_every_inconsistency_witness :
  heights_sequential (chain tamperedLink) ∧
  validateChain tamperedLink = inconsistencies (chain tamperedLink) ∧
  validateChain tamperedLink
    = ["Block at height 2 is not valid";
       "Block 2 previousBlockHash is not the same as the previous hash"].
Proof.
  assert (heights_sequential (chain tamperedLink)) as Hseq
    by (vm_compute; reflexivity).
  split; [exact Hseq|]. split; [|reflexivity].
  apply (validateChain_reports_every_inconsistency tamperedLink Hseq).
Defined.

Lemma appended_chain_is_linked_witness :
  appended 2 twoStars ∧
  ∃ current previous : Block,
    Js.index (chain twoStars) 2 = Some current ∧
    Js.index (chain twoStars) (2 - 1) = Some previous ∧
    BlockClass.previousBlockHash current = BlockClass.hash previous ∧
    BlockClass.height current = 2.
Proof.
  assert (appended 2 twoStars) as Happ.
  { one_more_append oneStar (StarPayload "walletB" "ra=3,dec=4") "1700000200".
    one_more_append genesisOnly (StarPayload "walletA" "ra=1,dec=2") "1700000100".
    apply appended_O. }
  split; [exact Happ|].
  apply (appended_chain_is_linked 2 twoStars 2 Happ). vm_compute. by split.
Defined.

Lemma appended_height_and_length_witness :
  appended 3 threeStars ∧
  height threeStars = 3 ∧ length (chain threeStars) = 4%nat.
Proof.
  assert (appended 3 threeStars) as Happ.
  { one_more_append twoStars (StarPayload "walletA" "ra=5,dec=6") "1700000300".
    one_more_append oneStar (StarPayload "walletB" "ra=3,dec=4") "1700000200".
    one_more_append genesisOnly (StarPayload "walletA" "ra=1,dec=2") "1700000100".
    apply appended_O. }
  split; [exact Happ|].
  apply (appended_height_and_length 3 threeStars Happ).
Defined.

Lemma addBlock_rejected_candidate_is_stamped_witness :
  well_formed tamperedTime ∧ validateChain tamperedTime ≠ [] ∧
  ∃ candidate previous : Block,
    _addBlock tamperedTime (BlockClass.new (StarPayload "walletC" "ra=7,dec=8"))
      "1700000400"
      = (tamperedTime, candidate, Reject (RejectErrors (validateChain tamperedTime))) ∧
    last (chain tamperedTime) = Some previous ∧
    BlockClass.previousBlockHash candidate = BlockClass.hash previous ∧
    BlockClass.height candidate = height tamperedTime + 1 ∧
    BlockClass.time candidate = TimeString "1700000400" ∧
    BlockClass.hash candidate
      = Some (sha256_json
                (BlockClass.set_time (TimeString "1700000400")
                   (BlockClass.set_height (height tamperedTime + 1)
                      (BlockClass.set_previousBlockHash (BlockClass.hash previous)
                         (BlockClass.new (StarPayload "walletC" "ra=7,dec=8")))))) ∧
    BlockClass.body candidate = StarPayload "walletC" "ra=7,dec=8".
Proof.
  assert (well_formed tamperedTime) as Hwf by well_formed_by_computation.
  assert (validateChain tamperedTime ≠ []) as Herrors by (vm_compute; discriminate).
  split; [exact Hwf|]. split; [exact Herrors|].
  apply (addBlock_rejected_candidate_is_stamped tamperedTime
           (BlockClass.new (StarPayload "walletC" "ra=7,dec=8")) "1700000400"
           Hwf Herrors).
Defined.

Lemma submitStar_invalid_signature_witness :
  expired "walletA:1700000000:starRegistry" "1700000100" = false ∧
  verify "walletA:1700000000:starRegistry" "walletA" "forged" ≠ Returns true ∧
  ∃ reason : string,
    submitStar oneStar "walletA" "walletA:1700000000:starRegistry" "forged"
      "ra=9,dec=9" "1700000100" "1700000101"
      = (oneStar, Reject (RejectString reason),
         [CallVerify "walletA:1700000000:starRegistry" "walletA" "forged"]) ∧
    (verify "walletA:1700000000:starRegistry" "walletA" "forged" = Returns false →
     reason = signatureMessage) ∧
    (∀ thrown,
       verify "walletA:1700000000:starRegistry" "walletA" "forged" = Throws thrown →
       reason = thrown).
Proof.
  assert (expired "walletA:1700000000:starRegistry" "1700000100" = false) as Hwindow
    by reflexivity.
  assert (verify "walletA:1700000000:starRegistry" "walletA" "forged" ≠ Returns true)
    as Hverify by (vm_compute; discriminate).
  split; [exact Hwindow|]. split; [exact Hverify|].
  apply (submitStar_invalid_signature oneStar "walletA"
           "walletA:1700000000:starRegistry" "forged" "ra=9,dec=9"
           "1700000100" "1700000101" Hwindow Hverify).
Defined.

Lemma submitStar_unparsable_or_future_time_witness :
  messageTime "walletA:soon:starRegistry" = None ∧
  expired "walletA:soon:starRegistry" "1700000100" = false ∧
  (submitStar oneStar "walletA" "walletA:soon:starRegistry" "forged" "ra=9,dec=9"
     "1700000100" "1700000101").2 !! 0%nat
    = Some (CallVerify "walletA:soon:starRegistry" "walletA" "forged").
Proof.
  assert (messageTime "walletA:soon:starRegistry" = None) as Hnan by reflexivity.
  split; [exact Hnan|].
  destruct (submitStar_unparsable_or_future_time oneStar "walletA"
              "walletA:soon:starRegistry" "forged" "ra=9,dec=9"
              "1700000100" "1700000101" (or_introl Hnan))
    as (Hwindow & _ & Hcall & _).
  split; [exact Hwindow | exact Hcall].
Defined.

Lemma queries_on_a_miss_witness :
  Forall (λ block, BlockClass.hash block ≠ Some "0000") (chain threeStars) ∧
  getBlockByHash threeStars "0000" = Reject (RejectString hashNotFoundMessage) ∧
  Forall (λ block, BlockClass.height block ≠ 4) (chain threeStars) ∧
  getBlockByHeight threeStars 4 = Resolve None.
Proof.
  assert (Forall (λ block, BlockClass.hash block ≠ Some "0000") (chain threeStars))
    as Hhash by (vm_compute; repeat constructor; discriminate).
  assert (Forall (λ block, BlockClass.height block ≠ 4) (chain threeStars))
    as Hheight by (vm_compute; repeat constructor; discriminate).
  split; [exact Hhash|]. split; [|split; [exact Hheight|]].
  - apply (proj1 (queries_on_a_miss threeStars "0000" 4) Hhash).
  - apply (proj2 (queries_on_a_miss threeStars "0000" 4) Hheight).
Defined.

(** The by-hash query on a hash that is not in the chain rejects: it does
    not resolve with an empty result. *)
Lemma getBlockByHash_miss_rejects :
  Forall (λ block, BlockClass.hash block ≠ Some "0000") (chain genesisOnly) ∧
  getBlockByHash genesisOnly "0000" = Reject (RejectString "Block hash not found") ∧
  ¬ ∃ found : Block, getBlockByHash genesisOnly "0000" = Resolve found.
Proof.
  split; [vm_compute; repeat constructor; discriminate|].
  split; [reflexivity|]. intros [found Hfound]. vm_compute in Hfound. discriminate.
Qed.

Lemma getStarsByWalletAddress_exact_witness :
  Forall (λ m, owner_of m ≠ Some "walletC") (omap getBData (chain threeStars)) ∧
  getStarsByWalletAddress threeStars "walletC" = Resolve [].
Proof.
  assert (Forall (λ m, owner_of m ≠ Some "walletC") (omap getBData (chain threeStars)))
    as Hnone by (vm_compute; repeat constructor; discriminate).
  split; [exact Hnone|].
  apply (proj2 (proj2 (getStarsByWalletAddress_exact threeStars "walletC")) Hnone).
Defined.

(** ** Examples *)

Example parseInt_seconds : Js.parseInt "1700000000" = Some 1700000000.
Proof. reflexivity. Qed.
Example parseInt_prefix : Js.parseInt "  -12ab" = Some (-12).
Proof. reflexivity. Qed.
Example parseInt_hex : Js.parseInt "0x1f" = Some 31.
Proof. reflexivity. Qed.
Example parseInt_word : Js.parseInt "starRegistry" = None.
Proof. reflexivity. Qed.
Example parseInt_undefined : Js.parseInt Js.undefined = None.
Proof. reflexivity. Qed.
Example split_message :
  Js.split_colon "addr:1700000000:starRegistry" = ["addr"; "1700000000"; "starRegistry"].
Proof. reflexivity. Qed.
Example split_empty : Js.split_colon "" = [""].
Proof. reflexivity. Qed.
Example messageTime_no_colon : messageTime "starRegistry" = None.
Proof. reflexivity. Qed.

Example challenge_round_trip :
  messageTime (requestMessageOwnershipVerification "walletA" "1700000000")
  = Some 1700000000.
Proof. reflexivity. Qed.

Example threeStars_valid : validateChain threeStars = [].
Proof. reflexivity. Qed.

Example tamperedTime_errors :
  validateChain tamperedTime = ["Block at height 1 is not valid"].
Proof. reflexivity. Qed.

Example stars_of_walletA :
  getStarsByWalletAddress threeStars "walletA"
  = Resolve [StarPayload "walletA" "ra=1,dec=2"; StarPayload "walletA" "ra=5,dec=6"].
Proof. reflexivity. Qed.

Example block_at_height_one :
  ∃ block, getBlockByHeight oneStar 1 = Resolve (Some block) ∧
           BlockClass.body block = StarPayload "walletA" "ra=1,dec=2".
Proof. eexists. split; reflexivity. Qed.

(** ** The further properties at concrete stores *)

Lemma getBlockByHeight_in_and_out_of_range_witness :
  well_formed threeStars ∧ 0 ≤ 2 ≤ height threeStars ∧
  ∃ block : Block,
    getBlockByHeight threeStars 2 = Resolve (Some block) ∧
    Js.index (chain threeStars) 2 = Some block ∧
    BlockClass.height block = 2.
Proof.
  assert (well_formed threeStars) as Hwf by well_formed_by_computation.
  assert (0 ≤ 2 ≤ height threeStars) as Hh by (vm_compute; split; discriminate).
  split; [exact Hwf|]. split; [exact Hh|].
  apply (proj1 (getBlockByHeight_in_and_out_of_range threeStars 2 Hwf) Hh).
Defined.

Lemma getBlockByHash_hit_witness :
  Exists (λ block, BlockClass.hash block = BlockClass.hash (blockAt threeStars 0))
    (chain threeStars) ∧
  ∃ (i : nat) (found : Block),
    getBlockByHash threeStars "null;0;data=Genesis Block;'1700000000';null"
      = Resolve found ∧
    chain threeStars !! i = Some found.
Proof.
  assert (Exists (λ block, BlockClass.hash block
                           = Some "null;0;data=Genesis Block;'1700000000';null")
            (chain threeStars)) as Hhit
    by (vm_compute; left; reflexivity).
  split; [exact Hhit|].
  destruct (getBlockByHash_hit threeStars
              "null;0;data=Genesis Block;'1700000000';null" Hhit)
    as (i & found & Hfind & Hi & _).
  exists i, found. split; [exact Hfind | exact Hi].
Defined.

Lemma addBlock_then_queries_witness :
  well_formed threeStars ∧ validateChain threeStars = [] ∧
  ∃ (added : Block) (hash : string),
    _addBlock threeStars candidate "1700000400"
      = (pushed threeStars added, added, Resolve added) ∧
    BlockClass.hash added = Some hash ∧
    getChainHeight (pushed threeStars added) = height threeStars + 1 ∧
    getBlockByHeight (pushed threeStars added) (height threeStars + 1)
      = Resolve (Some added) ∧
    (Forall (λ earlier, BlockClass.hash earlier ≠ Some hash) (chain threeStars) →
     getBlockByHash (pushed threeStars added) hash = Resolve added).
Proof.
  assert (well_formed threeStars) as Hwf by well_formed_by_computation.
  assert (validateChain threeStars = []) as Hvalid by (vm_compute; reflexivity).
  split; [exact Hwf|]. split; [exact Hvalid|].
  apply (addBlock_then_queries threeStars candidate "1700000400" Hwf Hvalid).
Defined.

Lemma tamperWithChain_is_detected_witness :
  well_formed threeStars ∧ 1 ≤ 2 ≤ height threeStars ∧
  Js.index (chain threeStars) (2 - 1) = Some (blockAt threeStars 1) ∧
  BlockClass.hash (blockAt threeStars 1) ≠ Some "123456" ∧
  previousHashMessage 2 ∈ validateChain (tamperWithChain threeStars 2).1 ∧
  (_addBlock (tamperWithChain threeStars 2).1 candidate "1700000400").1.1
    = (tamperWithChain threeStars 2).1 ∧
  (_addBlock (tamperWithChain threeStars 2).1 candidate "1700000400").2
    = Reject (RejectErrors (validateChain (tamperWithChain threeStars 2).1)).
Proof.
  assert (well_formed threeStars) as Hwf by well_formed_by_computation.
  assert (1 ≤ 2 ≤ height threeStars) as Hh by (vm_compute; split; discriminate).
  assert (Js.index (chain threeStars) (2 - 1) = Some (blockAt threeStars 1)) as Hprev
    by (vm_compute; reflexivity).
  assert (BlockClass.hash (blockAt threeStars 1) ≠ Some "123456") as Hhash
    by (vm_compute; discriminate).
  split; [exact Hwf|]. split; [exact Hh|]. split; [exact Hprev|]. split; [exact Hhash|].
  apply (tamperWithChain_is_detected threeStars 2 (blockAt threeStars 1) candidate
           "1700000400" Hwf Hh Hprev Hhash).
Defined.

Lemma tamperWithBlock_frame_witness :
  well_formed threeStars ∧
  Js.index (chain threeStars) 1 = Some (blockAt threeStars 1) ∧
  ∃ tampered : Block,
    (tamperWithBlock threeStars 1).2 = Some tampered ∧
    BlockClass.time tampered = TimeNumber 3 ∧
    BlockClass.hash tampered = BlockClass.hash (blockAt threeStars 1).
Proof.
  assert (well_formed threeStars) as Hwf by well_formed_by_computation.
  assert (Js.index (chain threeStars) 1 = Some (blockAt threeStars 1)) as Hblock
    by (vm_compute; reflexivity).
  split; [exact Hwf|]. split; [exact Hblock|].
  destruct (proj2 (tamperWithBlock_frame threeStars 1 Hwf) (blockAt threeStars 1) Hblock)
    as (tampered & Hret & _ & Htime & Hhash & _).
  exists tampered. split; [exact Hret|]. split; [exact Htime | exact Hhash].
Defined.

Lemma submitStar_appends_the_star_witness :
  expired challengeC "1700000450" = false ∧
  verify challengeC "walletC" ("signed:" +:+ challengeC) = Returns true ∧
  well_formed threeStars ∧ validateChain threeStars = [] ∧
  ∃ added : Block,
    submitStar threeStars "walletC" challengeC ("signed:" +:+ challengeC)
      "ra=7,dec=8" "1700000450" "1700000451"
      = (pushed threeStars added, Resolve added,
         [CallVerify challengeC "walletC" ("signed:" +:+ challengeC);
          CallAddBlock (BlockClass.new (StarPayload "walletC" "ra=7,dec=8"))]) ∧
    BlockClass.body added = StarPayload "walletC" "ra=7,dec=8" ∧
    BlockClass.height added = height threeStars + 1 ∧
    BlockClass.time added = TimeString "1700000451" ∧
    ∀ previous : Block, last (chain threeStars) = Some previous →
      BlockClass.previousBlockHash added = BlockClass.hash previous.
Proof.
  assert (expired challengeC "1700000450" = false) as Hwindow by reflexivity.
  assert (verify challengeC "walletC" ("signed:" +:+ challengeC) = Returns true)
    as Hverify by reflexivity.
  assert (well_formed threeStars) as Hwf by well_formed_by_computation.
  assert (validateChain threeStars = []) as Hvalid by (vm_compute; reflexivity).
  split; [exact Hwindow|]. split; [exact Hverify|].
  split; [exact Hwf|]. split; [exact Hvalid|].
  apply (submitStar_appends_the_star threeStars "walletC" challengeC
           ("signed:" +:+ challengeC) "ra=7,dec=8" "1700000450" "1700000451"
           Hwindow Hverify Hwf Hvalid).
Defined.

Lemma submitStar_propagates_validation_errors_witness :
  expired challengeC "1700000450" = false ∧
  verify challengeC "walletC" ("signed:" +:+ challengeC) = Returns true ∧
  well_formed tamperedTime ∧ validateChain tamperedTime ≠ [] ∧
  submitStar tamperedTime "walletC" challengeC ("signed:" +:+ challengeC)
    "ra=7,dec=8" "1700000450" "1700000451"
  = (tamperedTime, Reject (RejectErrors (validateChain tamperedTime)),
     [CallVerify challengeC "walletC" ("signed:" +:+ challengeC);
      CallAddBlock (BlockClass.new (StarPayload "walletC" "ra=7,dec=8"))]).
Proof.
  assert (expired challengeC "1700000450" = false) as Hwindow by reflexivity.
  assert (verify challengeC "walletC" ("signed:" +:+ challengeC) = Returns true)
    as Hverify by reflexivity.
  assert (well_formed tamperedTime) as Hwf by well_formed_by_computation.
  assert (validateChain tamperedTime ≠ []) as Herrors by (vm_compute; discriminate).
  split; [exact Hwindow|]. split; [exact Hverify|].
  split; [exact Hwf|]. split; [exact Herrors|].
  apply (submitStar_propagates_validation_errors tamperedTime "walletC" challengeC
           ("signed:" +:+ challengeC) "ra=7,dec=8" "1700000450" "1700000451"
           Hwindow Hverify Hwf Herrors).
Defined.

Lemma challenge_window_witness :
  hasColon "walletC" = false ∧ hasColon "1700000400" = false ∧
  Js.parseInt "1700000400" = Some 1700000400 ∧
  Js.parseInt "1700000760" = Some 1700000760 ∧
  messageTime (requestMessageOwnershipVerification "walletC" "1700000400")
    = Some 1700000400 ∧
  (expired (requestMessageOwnershipVerification "walletC" "1700000400") "1700000760"
     = true ↔ 360 ≤ 1700000760 - 1700000400).
Proof.
  assert (hasColon "walletC" = false) as Haddress by reflexivity.
  assert (hasColon "1700000400" = false) as Hissued by reflexivity.
  assert (Js.parseInt "1700000400" = Some 1700000400) as Hs by reflexivity.
  assert (Js.parseInt "1700000760" = Some 1700000760) as Hc by reflexivity.
  split; [exact Haddress|]. split; [exact Hissued|].
  split; [exact Hs|]. split; [exact Hc|].
  apply (challenge_window "walletC" "1700000400" "1700000760"
           1700000400 1700000760 Haddress Hissued Hs Hc).
Defined.

Lemma appended_genesis_witness :
  appended 2 twoStars ∧
  ∃ genesis : Block,
    Js.index (chain twoStars) 0 = Some genesis ∧
    BlockClass.body genesis = DataPayload "Genesis Block" ∧
    BlockClass.height genesis = 0 ∧
    BlockClass.previousBlockHash genesis = None.
Proof.
  assert (appended 2 twoStars) as Happ.
  { one_more_append oneStar (StarPayload "walletB" "ra=3,dec=4") "1700000200".
    one_more_append genesisOnly (StarPayload "walletA" "ra=1,dec=2") "1700000100".
    apply appended_O. }
  split; [exact Happ|].
  apply (appended_genesis 2 twoStars Happ).
Defined.


Lemma submitStar_then_stars_witness :
  expired challengeC "1700000450" = false ∧
  verify challengeC "walletC" ("signed:" +:+ challengeC) = Returns true ∧
  well_formed threeStars ∧ validateChain threeStars = [] ∧
  getBData (sealed threeStars (BlockClass.new (StarPayload "walletC" "ra=7,dec=8"))
              "1700000451")
    = Some (StarPayload "walletC" "ra=7,dec=8") ∧
  ∃ stars : list Payload,
    getStarsByWalletAddress threeStars "walletC" = Resolve stars ∧
    getStarsByWalletAddress
      (submitStar threeStars "walletC" challengeC ("signed:" +:+ challengeC)
         "ra=7,dec=8" "1700000450" "1700000451").1.1 "walletC"
      = Resolve (stars ++ [StarPayload "walletC" "ra=7,dec=8"]) ∧
    ∀ other : string, other ≠ "walletC" →
      getStarsByWalletAddress
        (submitStar threeStars "walletC" challengeC ("signed:" +:+ challengeC)
           "ra=7,dec=8" "1700000450" "1700000451").1.1 other
      = getStarsByWalletAddress threeStars other.
Proof.
  assert (expired challengeC "1700000450" = false) as Hwindow by reflexivity.
  assert (verify challengeC "walletC" ("signed:" +:+ challengeC) = Returns true)
    as Hverify by reflexivity.
  assert (well_formed threeStars) as Hwf by well_formed_by_computation.
  assert (validateChain threeStars = []) as Hvalid by (vm_compute; reflexivity).
  assert (getBData (sealed threeStars
                      (BlockClass.new (StarPayload "walletC" "ra=7,dec=8"))
                      "1700000451")
          = Some (StarPayload "walletC" "ra=7,dec=8")) as Hdecode
    by (vm_compute; reflexivity).
  split; [exact Hwindow|]. split; [exact Hverify|].
  split; [exact Hwf|]. split; [exact Hvalid|]. split; [exact Hdecode|].
  apply (submitStar_then_stars threeStars "walletC" challengeC
           ("signed:" +:+ challengeC) "ra=7,dec=8" "1700000450" "1700000451"
           Hwindow Hverify Hwf Hvalid Hdecode).
Defined.

Lemma submitStar_challenge_is_reusable_witness :
  (submitStar genesisOnly "walletC" challengeC ("signed:" +:+ challengeC)
     "ra=7,dec=8" "1700000450" "1700000451").2 !! 1%nat
    = Some (CallAddBlock (BlockClass.new (StarPayload "walletC" "ra=7,dec=8"))) ∧
  expired challengeC "1700000700" = false ∧
  (submitStar threeStars "walletC" challengeC ("signed:" +:+ challengeC)
     "ra=0,dec=0" "1700000700" "1700000701").2
  = [CallVerify challengeC "walletC" ("signed:" +:+ challengeC);
     CallAddBlock (BlockClass.new (StarPayload "walletC" "ra=0,dec=0"))].
Proof.
  assert ((submitStar genesisOnly "walletC" challengeC ("signed:" +:+ challengeC)
             "ra=7,dec=8" "1700000450" "1700000451").2 !! 1%nat
          = Some (CallAddBlock (BlockClass.new (StarPayload "walletC" "ra=7,dec=8"))))
    as Hfirst by (vm_compute; reflexivity).
  assert (expired challengeC "1700000700" = false) as Hwindow by reflexivity.
  split; [exact Hfirst|]. split; [exact Hwindow|].
  apply (submitStar_challenge_is_reusable genesisOnly threeStars "walletC" challengeC
           ("signed:" +:+ challengeC) "ra=7,dec=8" "ra=0,dec=0"
           "1700000450" "1700000700" "1700000451" "1700000701" Hfirst Hwindow).
Defined.

Lemma tamperWithBlock_keeps_links_witness :
  well_formed threeStars ∧
  linkageErrors (chain (tamperWithBlock threeStars 1).1) 2
  = linkageErrors (chain threeStars) 2.
Proof.
  assert (well_formed threeStars) as Hwf by well_formed_by_computation.
  split; [exact Hwf|].
  apply (tamperWithBlock_keeps_links threeStars 1 2 Hwf).
Defined.

Lemma run_store_invariant_witness :
  rtc step afterNew overlapped ∧
  BlockClass.height <$> chain (store overlapped) = [0; 0] ∧
  height (store overlapped) = Z.of_nat (length (chain (store overlapped))) - 1 ∧
  ∀ (i : nat) (block : Block), chain (store overlapped) !! i = Some block →
    0 ≤ BlockClass.height block ≤ Z.of_nat i.
Proof.
  assert (rtc step afterNew overlapped) as Hrun.
  { eapply rtc_l; [exact (step_call (mkBlockchain [] (-1)) _ candidate)|].
    eapply rtc_l;
      [exact (step_stamp (mkBlockchain [] (-1)) [] [HeightRead (-1) candidate] (-1)
                (BlockClass.new (DataPayload "Genesis Block")) "1700000000")|].
    eapply rtc_l;
      [exact (step_stamp (mkBlockchain [] (-1)) [Stamped genesisStamped] [] (-1)
                candidate "1700000000")|].
    eapply rtc_l;
      [exact (step_push (mkBlockchain [] (-1)) [] [Stamped candidateStamped]
                genesisStamped)|].
    apply rtc_once.
    exact (step_push (mkBlockchain [genesisStamped] 0) [] [] candidateStamped). }
  split; [exact Hrun|]. split; [reflexivity|].
  apply (run_store_invariant overlapped Hrun).
Defined.
